(** * use-context-selector: the store, its selector subscriptions and the
    shallow comparator, embedded from the TypeScript sources.

    - [Js]      the values of the host language that the code inspects:
                 primitives, and objects with a reference identity;
    - [Shallow] [src/utils/shallow.ts];
    - [Store]   [createStore]: [get], [set], [subscribe] and the thunk that
                 [subscribe] returns;
    - [Adapter] the read function that [useStoreSelector] hands to
                 [useSyncExternalStore], with its two refs.

    Caller-supplied selectors, equality functions and updaters are modelled
    as deterministic functions of their arguments that either return or
    throw. A notification callback is modelled by its identity and by the
    outcome of calling it; every call is appended to a log. A callback that
    calls back into the store is outside this model. *)

From stdpp Require Import gmap strings list fin_maps.
From Stdlib Require Import ZArith Lia.

#[local] Set Warnings "-register-all".

(** ** Values *)

Module Js.

(** Heap addresses: an object is identified by where it was allocated. *)
Abbreviation addr := nat.

(** A [number]. Only comparisons are performed on numbers here, so what
    matters is which of them are distinct: NaN, the two zeros, the two
    infinities, and the finite non-zero doubles, written [± m * 2^e]
    with [m] odd. *)
Inductive number : Type :=
| NaN
| Inf (neg : bool)
| Zero (neg : bool)
| Fin (neg : bool) (m : positive) (e : Z).

#[global] Instance number_eq_dec : EqDecision number.
Proof. solve_decision. Defined.

(** The integer [z] as a number. *)
Fixpoint odd_part (m : positive) (e : Z) : positive * Z :=
  match m with
  | xO m' => odd_part m' (e + 1)%Z
  | _ => (m, e)
  end.

Definition of_Z (z : Z) : number :=
  match z with
  | Z0 => Zero false
  | Zpos p => let '(m, e) := odd_part p 0%Z in Fin false m e
  | Zneg p => let '(m, e) := odd_part p 0%Z in Fin true m e
  end.

(** The integer that a number is, if it is one. *)
Definition to_Z (x : number) : option Z :=
  match x with
  | Zero _ => Some 0%Z
  | Fin neg m e =>
      if (0 <=? e)%Z
      then Some ((if neg then -1 else 1) * Z.pos m * 2 ^ e)%Z
      else None
  | _ => None
  end.

(** [x === y] on numbers. *)
Definition number_strict_eq (x y : number) : bool :=
  match x, y with
  | NaN, _ | _, NaN => false
  | Zero _, Zero _ => true
  | _, _ => bool_decide (x = y)
  end.

(** SameValueZero on numbers: NaN is itself, the zeros are one. *)
Definition number_same_value_zero (x y : number) : bool :=
  match x, y with
  | Zero _, Zero _ => true
  | _, _ => bool_decide (x = y)
  end.

Inductive Value : Type :=
| VUndefined
| VNull
| VBool (b : bool)
| VNum (n : number)
| VStr (s : string)
| VBigInt (z : Z)
| VSymbol (a : addr)
| VFun (a : addr)
| VArray (a : addr) (elems : list Value)
| VDate (a : addr) (time : number) (props hidden : gmap string Value)
| VRegExp (a : addr) (source flags : string) (props hidden : gmap string Value)
| VMap (a : addr) (entries : list (Value * Value))
    (props hidden : gmap string Value)
| VSet (a : addr) (members : list Value) (props hidden : gmap string Value)
| VPlain (a : addr) (props hidden : gmap string Value).

Definition num (z : Z) : Value := VNum (of_Z z).

Inductive TypeTag : Type :=
| TUndefined | TObject | TBoolean | TNumber | TString | TBigint | TSymbol
| TFunction.

#[global] Instance TypeTag_eq_dec : EqDecision TypeTag.
Proof. solve_decision. Defined.

Definition typeof (v : Value) : TypeTag :=
  match v with
  | VUndefined => TUndefined
  | VNull => TObject
  | VBool _ => TBoolean
  | VNum _ => TNumber
  | VStr _ => TString
  | VBigInt _ => TBigint
  | VSymbol _ => TSymbol
  | VFun _ => TFunction
  | VArray _ _ | VDate _ _ _ _ | VRegExp _ _ _ _ _ | VMap _ _ _ _
  | VSet _ _ _ _ | VPlain _ _ _ => TObject
  end.

(** The address of an object or function; [None] for a primitive. *)
Definition ref (v : Value) : option addr :=
  match v with
  | VFun a | VArray a _ | VDate a _ _ _ | VRegExp a _ _ _ _ | VMap a _ _ _
  | VSet a _ _ _ | VPlain a _ _ => Some a
  | _ => None
  end.

Definition same_ref (a b : Value) : bool :=
  match ref a, ref b with
  | Some x, Some y => bool_decide (x = y)
  | _, _ => false
  end.

(** [Object.is(a, b)]. *)
Definition Object_is (a b : Value) : bool :=
  match a, b with
  | VUndefined, VUndefined => true
  | VNull, VNull => true
  | VBool x, VBool y => bool_decide (x = y)
  | VNum x, VNum y => bool_decide (x = y)
  | VStr x, VStr y => bool_decide (x = y)
  | VBigInt x, VBigInt y => bool_decide (x = y)
  | VSymbol x, VSymbol y => bool_decide (x = y)
  | _, _ => same_ref a b
  end.

(** [a === b]. *)
Definition strict_eq (a b : Value) : bool :=
  match a, b with
  | VNum x, VNum y => number_strict_eq x y
  | _, _ => Object_is a b
  end.

(** SameValueZero, the key comparison of [Map] and [Set]. *)
Definition same_value_zero (a b : Value) : bool :=
  match a, b with
  | VNum x, VNum y => number_same_value_zero x y
  | _, _ => Object_is a b
  end.

Definition is_null (v : Value) : bool :=
  match v with VNull => true | _ => false end.
Definition is_undefined (v : Value) : bool :=
  match v with VUndefined => true | _ => false end.

(** [Array.isArray(v)] and [v instanceof C]. *)
Definition isArray (v : Value) : bool :=
  match v with VArray _ _ => true | _ => false end.
Definition instanceof_Date (v : Value) : bool :=
  match v with VDate _ _ _ _ => true | _ => false end.
Definition instanceof_RegExp (v : Value) : bool :=
  match v with VRegExp _ _ _ _ _ => true | _ => false end.
Definition instanceof_Map (v : Value) : bool :=
  match v with VMap _ _ _ _ => true | _ => false end.
Definition instanceof_Set (v : Value) : bool :=
  match v with VSet _ _ _ _ => true | _ => false end.

(** Array access: [v.length] and [v[i]]. *)
Definition elems (v : Value) : list Value :=
  match v with VArray _ l => l | _ => [] end.
Definition index (v : Value) (i : nat) : Value :=
  default VUndefined (elems v !! i).

(** [d.getTime()]; NaN for an invalid date. *)
Definition getTime (v : Value) : number :=
  match v with VDate _ t _ _ => t | _ => NaN end.

(** [r.toString()]. *)
Definition toString (v : Value) : string :=
  match v with
  | VRegExp _ source flags _ _ => "/" +:+ source +:+ "/" +:+ flags
  | _ => ""
  end.

(** A [Map] as its entries in insertion order, the keys pairwise
    distinct. *)
Definition entries (v : Value) : list (Value * Value) :=
  match v with VMap _ l _ _ => l | _ => [] end.
Definition map_has (v key : Value) : bool :=
  existsb (fun kv => same_value_zero kv.1 key) (entries v).
Definition map_get (v key : Value) : Value :=
  match find (fun kv => same_value_zero kv.1 key) (entries v) with
  | Some kv => kv.2
  | None => VUndefined
  end.

(** A [Set] as its members in insertion order, pairwise distinct. *)
Definition members (v : Value) : list Value :=
  match v with VSet _ l _ _ => l | _ => [] end.
Definition set_has (v x : Value) : bool :=
  existsb (fun y => same_value_zero y x) (members v).

(** The own string-keyed data properties of an object that is not an
    array (the comparator never asks for the keys of an array): the
    enumerable ones in [props], the others in [hidden]. A key is in one of
    the two at most. The [hidden] of a [RegExp] holds its [lastIndex];
    [Object.defineProperty] puts keys there on any object. *)
Definition own_props (v : Value) : gmap string Value :=
  match v with
  | VDate _ _ p _ | VRegExp _ _ _ p _ | VMap _ _ p _ | VSet _ _ p _
  | VPlain _ p _ => p
  | _ => ∅
  end.
Definition own_hidden (v : Value) : gmap string Value :=
  match v with
  | VDate _ _ _ h | VRegExp _ _ _ _ h | VMap _ _ _ h | VSet _ _ _ h
  | VPlain _ _ h => h
  | _ => ∅
  end.
Definition own (v : Value) : gmap string Value :=
  own_props v ∪ own_hidden v.

(** [Object.keys(v)] lists the enumerable own keys;
    [Object.prototype.hasOwnProperty.call(v, key)] sees every own key;
    [v[key]] is read for own keys only. *)
Definition Object_keys (v : Value) : list string :=
  (map_to_list (own_props v)).*1.
Definition hasOwnProperty (v : Value) (key : string) : bool :=
  bool_decide (is_Some (own v !! key)).
Definition get_prop (v : Value) (key : string) : Value :=
  default VUndefined (own v !! key).

End Js.

(** ** src/utils/shallow.ts *)

Module Shallow.
Import Js.

Definition shallow (a b : Value) : bool :=
  if Object_is a b then true
  else if is_null a || is_null b || is_undefined a || is_undefined b
  then strict_eq a b
  else if negb (bool_decide (typeof a = typeof b)) then false
  else if negb (bool_decide (typeof a = TObject))
          || negb (bool_decide (typeof b = TObject)) then false
  else if isArray a && isArray b then
    if negb (bool_decide (length (elems a) = length (elems b))) then false
    else forallb (fun i => Object_is (index a i) (index b i))
                 (seq 0 (length (elems a)))
  else if isArray a || isArray b then false
  else if instanceof_Date a && instanceof_Date b then
    number_strict_eq (getTime a) (getTime b)
  else if instanceof_RegExp a && instanceof_RegExp b then
    bool_decide (toString a = toString b)
  else if instanceof_Map a && instanceof_Map b then
    if negb (bool_decide (length (entries a) = length (entries b)))
    then false
    else forallb (fun kv => map_has b kv.1 && Object_is kv.2 (map_get b kv.1))
                 (entries a)
  else if instanceof_Set a && instanceof_Set b then
    if negb (bool_decide (length (members a) = length (members b)))
    then false
    else forallb (fun x => set_has b x) (members a)
  else
    let keysA := Object_keys a in
    let keysB := Object_keys b in
    if negb (bool_decide (length keysA = length keysB)) then false
    else forallb (fun key => hasOwnProperty b key
                             && Object_is (get_prop a key) (get_prop b key))
                 keysA.

End Shallow.

(** ** createStore *)

Module Store.
Import Js.

(** What a [throw] carries: an [Error] built by the library itself, or
    any value thrown by caller-supplied code. *)
Inductive Exn : Type :=
| Error (message : string)
| Thrown (v : Value).

(** The outcome of evaluating caller-supplied code. *)
Inductive result (A : Type) : Type :=
| Ok (a : A)
| Throw (e : Exn).
Arguments Ok {A} a.
Arguments Throw {A} e.

#[global] Instance result_ret : MRet result := @Ok.
#[global] Instance result_bind : MBind result := fun A B f r =>
  match r with
  | Ok a => f a
  | Throw e => Throw e
  end.

#[global] Instance result_fmap : FMap result := fun A B f r =>
  match r with
  | Ok a => Ok (f a)
  | Throw e => Throw e
  end.

(** The state held by a store is an object: a reference and its own
    fields. A partial update contributes only its own fields. *)
Record State : Type := mkState {
  state_ref : addr;
  fields : gmap string Value;
}.

Definition as_value (s : State) : Value :=
  VPlain (state_ref s) (fields s) ∅.

Definition SelectorFn : Type := State -> result Value.
Definition EqualityFn : Type := Value -> Value -> result bool.

(** A notification thunk [() => void]. *)
Record Callback : Type := mkCallback {
  cb_id : nat;
  cb_outcome : result unit;
}.

Record Entry : Type := mkEntry {
  callback : Callback;
  selector : SelectorFn;
  equalityFn : EqualityFn;
}.

(** The closure variables of [createStore] ([value], [listeners]), the
    [$version] field of the store object, the allocation pointer of the
    heap, and the log of callback invocations. [listeners] is a [Set] of
    entry objects: insertion-ordered, keyed by the entry's address.
    [$version] starts at 1 and is only ever incremented by one, so it is
    an integer; the increment is exact below 2^53. *)
Record Store : Type := mkStore {
  value : State;
  listeners : list (addr * Entry);
  version : Z;
  next : addr;
  calls : list Callback;
}.

(** Store operations: they may throw, and what they did to the store
    before throwing stays done. *)
Definition M (A : Type) : Type := Store -> result A * Store.

#[global] Instance store_ret : MRet M := fun A a s => (Ok a, s).
#[global] Instance store_bind : MBind M := fun A B f m s =>
  match m s with
  | (Ok a, s') => f a s'
  | (Throw e, s') => (Throw e, s')
  end.
Definition lift {A} (r : result A) : M A := fun s => (r, s).
Definition gets {A} (f : Store -> A) : M A := fun s => (Ok (f s), s).
Definition modify (f : Store -> Store) : M unit := fun s => (Ok tt, f s).

Definition set_value (v : State) (s : Store) : Store :=
  mkStore v (listeners s) (version s) (next s) (calls s).
Definition set_listeners (l : list (addr * Entry)) (s : Store) : Store :=
  mkStore (value s) l (version s) (next s) (calls s).
Definition set_version (v : Z) (s : Store) : Store :=
  mkStore (value s) (listeners s) v (next s) (calls s).
Definition set_next (n : addr) (s : Store) : Store :=
  mkStore (value s) (listeners s) (version s) n (calls s).
Definition log_call (cb : Callback) (s : Store) : Store :=
  mkStore (value s) (listeners s) (version s) (next s) (calls s ++ [cb]).

(** Allocation of a fresh object. *)
Definition alloc : M addr :=
  a ← gets next; modify (set_next (S a));; mret a.

(** [cb()] *)
Definition call (cb : Callback) : M unit :=
  modify (log_call cb);; lift (cb_outcome cb).

(** [store.$version++]: the value before the increment. *)
Definition post_increment_version : M Z :=
  old ← gets version; modify (set_version (old + 1)%Z);; mret old.

(** Truthiness of a number. *)
Definition truthy (n : Z) : bool := negb (n =? 0)%Z.

(** The argument of [set]. *)
Inductive SetArg : Type :=
| Partial (update : gmap string Value)
| Updater (f : State -> result (gmap string Value)).

(** [typeof nextState === 'function' ? nextState(value) : nextState] *)
Definition resolve (nextState : SetArg) (value : State)
  : result (gmap string Value) :=
  match nextState with
  | Updater f => f value
  | Partial update => Ok update
  end.

(** The fields of [{ ...value, ...update }]. *)
Definition spread (value : State) (update : gmap string Value)
  : gmap string Value :=
  update ∪ fields value.

(** [!entry.equalityFn(entry.selector(newState), entry.selector(value))] *)
Definition changed (newState value : State) (entry : Entry) : result bool :=
  a ← selector entry newState;
  b ← selector entry value;
  eq ← equalityFn entry a b;
  mret (negb eq).

(** [listeners.forEach(entry => { if (...) updateQueue.push(entry.callback) })] *)
Fixpoint collect (newState value : State) (ls : list (addr * Entry))
    (updateQueue : list Callback) : result (list Callback) :=
  match ls with
  | [] => Ok updateQueue
  | (_, entry) :: rest =>
      c ← changed newState value entry;
      collect newState value rest
        (if c : bool then updateQueue ++ [callback entry] else updateQueue)
  end.

(** [updateQueue.forEach(cb => cb())] *)
Fixpoint run_queue (updateQueue : list Callback) : M unit :=
  match updateQueue with
  | [] => mret tt
  | cb :: rest => call cb;; run_queue rest
  end.

Definition set (nextState : SetArg) : M unit :=
  value0 ← gets value;
  update ← lift (resolve nextState value0);
  a ← alloc;
  let newState := mkState a (spread value0 update) in
  ls ← gets listeners;
  updateQueue ← lift (collect newState value0 ls []);
  modify (set_value newState);;
  if negb (bool_decide (length updateQueue = 0)) then
    old ← post_increment_version;
    if truthy old then run_queue updateQueue else mret tt
  else mret tt.

Definition get : M State := gets value.

(** [listeners.add(entry)] and [listeners.delete(entry)] of a [Set]. *)
Definition set_add (a : addr) (entry : Entry) (ls : list (addr * Entry))
  : list (addr * Entry) :=
  if bool_decide (a ∈ ls.*1) then ls else ls ++ [(a, entry)].
Definition set_delete (a : addr) (ls : list (addr * Entry))
  : list (addr * Entry) :=
  filter (fun e => e.1 ≠ a) ls.

(** [subscribe] returns the thunk [() => listeners.delete(entry)]; the
    thunk is determined by the address of the entry it captures. *)
Definition subscribe (callback : Callback) (selector : SelectorFn)
    (equalityFn : option EqualityFn) : M addr :=
  let equalityFn := default (fun a b => Ok (Object_is a b)) equalityFn in
  a ← alloc;
  let entry := mkEntry callback selector equalityFn in
  modify (fun s => set_listeners (set_add a entry (listeners s)) s);;
  mret a.

(** Running the thunk returned by [subscribe]. *)
Definition unsubscribe (a : addr) : M bool :=
  ls ← gets listeners;
  modify (set_listeners (set_delete a ls));;
  mret (bool_decide (a ∈ ls.*1)).

Definition createStore (initialValue : State) : Store :=
  mkStore initialValue [] 1%Z (S (state_ref initialValue)) [].

End Store.

(** ** useStoreSelector *)

Module Adapter.
Import Js Store.

(** [lastSnapshotRef.current] and [lastVersionRef.current]. *)
Record Refs : Type := mkRefs {
  lastSnapshotRef : Value;
  lastVersionRef : Z;
}.

(** [selector ? selector(store.get()) : store.get()] *)
Definition applySelector (store : Store) (selector : option SelectorFn)
  : result Value :=
  match selector with
  | Some selector => selector (value store)
  | None => Ok (as_value (value store))
  end.

(** The hook up to its two [useRef] calls: [store] is what [useContext]
    found, [None] outside a Provider. *)
Definition useStoreSelector_refs (store : option Store)
    (selector : SelectorFn) : result Refs :=
  match store with
  | None => Throw (Error "useStoreSelector must be used within a Provider")
  | Some store =>
      snapshot ← applySelector store (Some selector);
      mret (mkRefs snapshot (version store))
  end.

(** The read function given to [useSyncExternalStore]. *)
Definition getSnapshot (store : Store) (selector : SelectorFn)
    (refs : Refs) : result Value * Refs :=
  match applySelector store (Some selector) with
  | Throw e => (Throw e, refs)
  | Ok nextSnapshot =>
      let currentVersion := version store in
      if bool_decide (lastVersionRef refs = currentVersion)
      then (Ok (lastSnapshotRef refs), refs)
      else (Ok nextSnapshot, mkRefs nextSnapshot currentVersion)
  end.

(** The subscribe function given to [useSyncExternalStore]. *)
Definition hook_subscribe (selector : SelectorFn)
    (equalityFn : option EqualityFn) (listener : Callback) : M addr :=
  subscribe listener selector equalityFn.

End Adapter.

(** ** Specification vocabulary *)

Module Spec.
Import Js Store.

(** The state that [set] builds from update [P] in store [s]. *)
Definition newState (s : Store) (P : gmap string Value) : State :=
  mkState (next s) (spread (value s) P).

(** An entry whose selected value differs between the two states. *)
Definition is_changed (new old : State) (entry : Entry) : bool :=
  match changed new old entry with
  | Ok true => true
  | _ => false
  end.

(** No selector or equality function of the entry throws. *)
Definition evaluates (new old : State) (entry : Entry) : Prop :=
  ∃ b, changed new old entry = Ok b.

(** The entries to notify, in subscription order. *)
Definition notified (new old : State) (ls : list (addr * Entry))
  : list (addr * Entry) :=
  filter (fun e => is_changed new old e.2 = true) ls.

Definition callbacks (es : list (addr * Entry)) : list Callback :=
  (fun e => callback e.2) <$> es.

(** What running a queue of callbacks calls, and how it ends: the first
    callback that throws ends the run. *)
Fixpoint invoked (q : list Callback) : list Callback :=
  match q with
  | [] => []
  | cb :: rest =>
      cb :: match cb_outcome cb with
            | Ok _ => invoked rest
            | Throw _ => []
            end
  end.

Fixpoint outcome (q : list Callback) : result unit :=
  match q with
  | [] => Ok tt
  | cb :: rest =>
      match cb_outcome cb with
      | Ok _ => outcome rest
      | Throw e => Throw e
      end
  end.

Definition returns (cb : Callback) : Prop := cb_outcome cb = Ok tt.

(** What holds of every store built by [createStore] and used through
    its operations. *)
Record wf (s : Store) : Prop := mkWf {
  wf_value : (state_ref (value s) < next s)%nat;
  wf_entries : Forall (fun e => (e.1 < next s)%nat) (listeners s);
  wf_nodup : NoDup (listeners s).*1;
  wf_version : (1 ≤ version s)%Z;
}.

(** Uses of a store. *)
Inductive Op : Type :=
| OpSet (nextState : SetArg)
| OpSubscribe (callback : Callback) (selector : SelectorFn)
    (equalityFn : option EqualityFn)
| OpUnsubscribe (a : addr).

Definition step (s : Store) (op : Op) : Store :=
  match op with
  | OpSet nextState => (set nextState s).2
  | OpSubscribe cb sel eq => (subscribe cb sel eq s).2
  | OpUnsubscribe a => (unsubscribe a s).2
  end.

Definition run (ops : list Op) (s : Store) : Store := foldl step s ops.



(** A selector or the equality function of the entry throws [e]. *)
Definition throws (new old : State) (entry : Entry) (e : Exn) : Prop :=
  selector entry new = Throw e
  ∨ (∃ a, selector entry new = Ok a ∧ selector entry old = Throw e)
  ∨ (∃ a b, selector entry new = Ok a ∧ selector entry old = Ok b
            ∧ equalityFn entry a b = Throw e).

(** [s => s[key]] and [s => s]. *)
Definition select_field (key : string) : SelectorFn :=
  fun s => Ok (default VUndefined (fields s !! key)).
Definition select_state : SelectorFn := fun s => Ok (as_value s).

End Spec.

(** ** Concrete stores and values *)

Module Examples.
Import Js Store Spec Adapter.

(** [createStore({ count: 0, name: "x" })] *)
Definition initial : State :=
  mkState 0 {[ "count" := num 0; "name" := VStr "x" ]}.
Definition store0 : Store := createStore initial.

Definition listener (n : nat) : Callback := mkCallback n (Ok tt).

(** [s => ({ count: s.count + 1 })], on integer counts. *)
Definition increment : SetArg := Updater (fun s =>
  match fields s !! "count" with
  | Some (VNum n) =>
      match to_Z n with
      | Some z => Ok {[ "count" := num (z + 1) ]}
      | None => Throw (Thrown (VStr "not an integer count"))
      end
  | _ => Throw (Thrown (VStr "not an integer count"))
  end).

(** [createStore({ user: { name: "John", age: 30 }, count: 0 })] *)
Definition nested : Store :=
  createStore (mkState 1
    {[ "user" := VPlain 0 {[ "name" := VStr "John"; "age" := num 30 ]} ∅;
       "count" := num 0 ]}).

(** [store.subscribe(listener, s => s.count)] *)
Definition counting : Store :=
  (subscribe (listener 7) (select_field "count") None store0).2.

(** [store.subscribe(listener, s => s)] *)
Definition watching : Store :=
  (subscribe (listener 7) select_state None store0).2.

(** [s => s.user.name], which throws a TypeError when [s.user] is
    [undefined] or [null]. *)
Definition TypeError : Exn := Thrown (VStr "TypeError").
Definition select_user_name : SelectorFn := fun s =>
  match default VUndefined (fields s !! "user") with
  | VUndefined | VNull => Throw TypeError
  | user => Ok (get_prop user "name")
  end.

(** [createStore({ user: { name: "John" } })] *)
Definition with_user : Store :=
  createStore
    (mkState 1 {[ "user" := VPlain 0 {[ "name" := VStr "John" ]} ∅ ]}).

(** [store.subscribe(listener, s => s.user.name)] *)
Definition naming : Store :=
  (subscribe (listener 7) select_user_name None with_user).2.

(** [new Date(0)], [/x/], [new Map([["a", 1]])], [new Set([5])] *)
Definition epoch : Value := VDate 1 (of_Z 0) ∅ ∅.
Definition regex_x : Value := VRegExp 2 "x" "" ∅ {[ "lastIndex" := num 0 ]}.
Definition map_a1 : Value := VMap 3 [(VStr "a", num 1)] ∅ ∅.
Definition set_5 : Value := VSet 4 [num 5] ∅ ∅.

End Examples.

(** ** What the comparisons look at *)

Module Identity.
Import Js.

(** What [Object.is] looks at in a value: the value of a primitive, the
    address of an object or function. *)
Inductive Key : Type :=
| KUndefined
| KNull
| KBool (b : bool)
| KNum (n : number)
| KStr (s : string)
| KBigInt (z : Z)
| KSymbol (a : addr)
| KRef (a : addr).

#[global] Instance Key_eq_dec : EqDecision Key.
Proof. solve_decision. Defined.

Definition key (v : Value) : Key :=
  match v with
  | VUndefined => KUndefined
  | VNull => KNull
  | VBool b => KBool b
  | VNum n => KNum n
  | VStr s => KStr s
  | VBigInt z => KBigInt z
  | VSymbol a => KSymbol a
  | VFun a | VArray a _ | VDate a _ _ _ | VRegExp a _ _ _ _ | VMap a _ _ _
  | VSet a _ _ _ | VPlain a _ _ => KRef a
  end.

(** What SameValueZero looks at: the same, the two zeros being one. *)
Definition zero_key (v : Value) : Key :=
  match v with
  | VNum (Zero _) => KNum (Zero false)
  | _ => key v
  end.

(** A [Map] holds each key once and a [Set] each member once. *)
Definition well_formed (v : Value) : Prop :=
  match v with
  | VMap _ l _ _ => NoDup (zero_key <$> l.*1)
  | VSet _ l _ _ => NoDup (zero_key <$> l)
  | _ => True
  end.

(** A value that [typeof] calls an object and that is not [null]. *)
Definition is_object (v : Value) : bool :=
  match v with
  | VArray _ _ | VDate _ _ _ _ | VRegExp _ _ _ _ _ | VMap _ _ _ _
  | VSet _ _ _ _ | VPlain _ _ _ => true
  | _ => false
  end.

End Identity.

(** ** How a store is used *)

Module Usage.
Import Js Store Spec.

Definition is_update (op : Op) : bool :=
  match op with
  | OpSet _ => true
  | _ => false
  end.

(** The number of updates among the uses. *)
Definition updates (ops : list Op) : nat :=
  length (filter (fun op => is_update op = true) ops).

(** An entry subscribed with [s => s[key]] and no equality function. *)
Definition field_entry (cb : Callback) (key : string) : Entry :=
  mkEntry cb (select_field key) (fun a b => Ok (Object_is a b)).


End Usage.

(** ** More concrete stores *)

Module Scenarios.
Import Js Store Spec Adapter Usage.

(** A callback that throws. *)
Definition boom : Exn := Thrown (VStr "boom").
Definition failing (n : nat) : Callback := mkCallback n (Throw boom).

(** An updater that throws. *)
Definition failing_updater : SetArg := Updater (fun _ => Throw boom).

(** Three subscriptions to [s => s.count]; the callback of the second
    throws. *)
Definition three : Store :=
  run [OpSubscribe (Examples.listener 1) (select_field "count") None;
       OpSubscribe (failing 2) (select_field "count") None;
       OpSubscribe (Examples.listener 3) (select_field "count") None]
      Examples.store0.




(** One subscription to [s => s.count] and one to [s => s.name]. *)
Definition two_fields : Store :=
  run [OpSubscribe (Examples.listener 1) (select_field "count") None;
       OpSubscribe (Examples.listener 2) (select_field "name") None]
      Examples.store0.

End Scenarios.

(** * Properties *)

Import Js Shallow Store Adapter Spec.

(** ** Running the queue *)

Lemma run_queue_spec q s :
  run_queue q s =
    (outcome q,
     mkStore (value s) (listeners s) (version s) (next s) (calls s ++ invoked q)).
Proof.
  revert s. induction q as [|cb rest IH]; intros s; simpl.
  - rewrite app_nil_r. by destruct s.
  - unfold mbind, store_bind, call, modify, lift; simpl.
    destruct (cb_outcome cb) as [[]|e]; simpl.
    + rewrite IH. simpl. by rewrite <- app_assoc.
    + done.
Qed.

Lemma outcome_returns q : Forall returns q → outcome q = Ok tt ∧ invoked q = q.
Proof.
  induction 1 as [|cb rest Hcb _ [IH1 IH2]]; simpl; [done|].
  rewrite Hcb. by rewrite IH1, IH2.
Qed.

Lemma outcome_ok_invoked q : outcome q = Ok tt → invoked q = q.
Proof.
  induction q as [|cb rest IH]; simpl; [done|].
  destruct (cb_outcome cb); [|done]. intros H. by rewrite IH.
Qed.

Lemma invoked_prefix q : invoked q `prefix_of` q.
Proof.
  induction q as [|cb rest IH]; simpl; [done|].
  destruct (cb_outcome cb).
  - by apply prefix_cons.
  - apply prefix_cons, prefix_nil.
Qed.

(** ** The notification queue *)

Lemma changed_cases new old entry :
  changed new old entry =
    match selector entry new with
    | Throw e => Throw e
    | Ok a =>
        match selector entry old with
        | Throw e => Throw e
        | Ok b =>
            match equalityFn entry a b with
            | Throw e => Throw e
            | Ok eq => Ok (negb eq)
            end
        end
    end.
Proof.
  unfold changed, mbind, result_bind, mret, result_ret.
  destruct (selector entry new); [|done].
  destruct (selector entry old); [|done].
  by destruct (equalityFn entry _ _).
Qed.

Lemma is_changed_true new old entry :
  is_changed new old entry = true →
  ∃ a b, selector entry new = Ok a ∧ selector entry old = Ok b
         ∧ equalityFn entry a b = Ok false.
Proof.
  unfold is_changed. rewrite changed_cases.
  destruct (selector entry new) as [a|]; [|done].
  destruct (selector entry old) as [b|]; [|done].
  destruct (equalityFn entry a b) as [[]|] eqn:Heq; [done| |done].
  intros _. by exists a, b.
Qed.

Lemma collect_cons new old a entry rest q :
  collect new old ((a, entry) :: rest) q =
    match changed new old entry with
    | Ok c => collect new old rest (if c then q ++ [callback entry] else q)
    | Throw e => Throw e
    end.
Proof. reflexivity. Qed.

Lemma notified_cons new old a entry rest :
  notified new old ((a, entry) :: rest) =
    if is_changed new old entry
    then (a, entry) :: notified new old rest
    else notified new old rest.
Proof.
  unfold notified. rewrite filter_cons. simpl.
  destruct (is_changed new old entry).
  - by rewrite decide_True.
  - by rewrite decide_False.
Qed.

Lemma collect_evaluates new old ls q :
  Forall (fun e => evaluates new old e.2) ls →
  collect new old ls q = Ok (q ++ callbacks (notified new old ls)).
Proof.
  intros H. revert q. induction H as [|[a entry] rest [b Hb] _ IH]; intros q.
  - simpl. by rewrite app_nil_r.
  - rewrite collect_cons, notified_cons. unfold is_changed.
    simpl in Hb. rewrite Hb, IH. destruct b; [|done].
    unfold callbacks. simpl. by rewrite <- app_assoc.
Qed.

Lemma collect_ok new old ls q q' :
  collect new old ls q = Ok q' →
  q' = q ++ callbacks (notified new old ls)
  ∧ Forall (fun e => evaluates new old e.2) ls.
Proof.
  revert q. induction ls as [|[a entry] rest IH]; intros q.
  - simpl. intros [= <-]. by rewrite app_nil_r.
  - rewrite collect_cons, notified_cons. unfold is_changed.
    destruct (changed new old entry) as [b|e] eqn:Hb; [|done].
    intros H. apply IH in H as [-> Hrest]. split.
    + destruct b; [|done]. unfold callbacks. simpl. by rewrite <- app_assoc.
    + constructor; [by exists b|done].
Qed.

Lemma collect_throw new old pre a entry post q e :
  Forall (fun x => evaluates new old x.2) pre →
  changed new old entry = Throw e →
  collect new old (pre ++ (a, entry) :: post) q = Throw e.
Proof.
  intros Hpre He. revert q.
  induction Hpre as [|[a' entry'] rest [b Hb] _ IH]; intros q.
  - simpl app. rewrite collect_cons. by rewrite He.
  - simpl app. rewrite collect_cons. simpl in Hb. rewrite Hb. apply IH.
Qed.

Lemma notified_sublist new old ls : notified new old ls `sublist_of` ls.
Proof. apply sublist_filter. Qed.

Lemma notified_changed new old ls :
  Forall (fun e => is_changed new old e.2 = true) (notified new old ls).
Proof. apply Forall_forall. intros e He. by apply list_elem_of_filter in He as [? _]. Qed.

(** ** What [set] does, case by case *)

Lemma set_unfold nextState s :
  set nextState s =
    match resolve nextState (value s) with
    | Throw e => (Throw e, s)
    | Ok P =>
        match collect (newState s P) (value s) (listeners s) [] with
        | Throw e => (Throw e, set_next (S (next s)) s)
        | Ok [] =>
            (Ok tt,
             mkStore (newState s P) (listeners s) (version s) (S (next s))
                     (calls s))
        | Ok q =>
            if truthy (version s)
            then (outcome q,
                  mkStore (newState s P) (listeners s) (version s + 1)
                          (S (next s)) (calls s ++ invoked q))
            else (Ok tt,
                  mkStore (newState s P) (listeners s) (version s + 1)
                          (S (next s)) (calls s))
        end
    end.
Proof.
  unfold set, mbind, store_bind, gets, lift, alloc, modify, mret, store_ret,
    post_increment_version, newState; simpl.
  destruct (resolve nextState (value s)) as [P|e]; simpl; [|done].
  destruct (collect _ _ _ _) as [q|e]; simpl; [|done].
  destruct q as [|cb q]; simpl; [done|].
  destruct (truthy (version s)); simpl; [|done].
  change (run_queue (cb :: q) (mkStore (newState s P) (listeners s)
            (version s + 1) (S (next s)) (calls s)) = (outcome (cb :: q),
            mkStore (newState s P) (listeners s) (version s + 1) (S (next s))
              (calls s ++ invoked (cb :: q)))).
  by rewrite run_queue_spec.
Qed.

(** ** Stores in use are well formed *)

Lemma wf_createStore initialValue : wf (createStore initialValue).
Proof.
  split; simpl; [lia|constructor|constructor|lia].
Qed.

Lemma set_frame nextState s :
  listeners (set nextState s).2 = listeners s
  ∧ (next s ≤ next (set nextState s).2)%nat
  ∧ (version s ≤ version (set nextState s).2)%Z
  ∧ (value (set nextState s).2 = value s
     ∨ state_ref (value (set nextState s).2) = next s
       ∧ next (set nextState s).2 = S (next s)).
Proof.
  rewrite set_unfold.
  destruct (resolve nextState (value s)) as [P|e]; simpl.
  2: { repeat split; [lia|lia|by left]. }
  destruct (collect _ _ _ _) as [[|cb q]|e]; simpl.
  - repeat split; [lia|lia|by right].
  - destruct (truthy (version s)); simpl; repeat split; try lia; by right.
  - repeat split; [lia|lia|by left].
Qed.

Lemma wf_set nextState s : wf s → wf (set nextState s).2.
Proof.
  intros [Hv He Hn Hver].
  destruct (set_frame nextState s) as (Hl & Hnext & Hversion & Hvalue).
  split.
  - destruct Hvalue as [->|[-> ->]]; lia.
  - rewrite Hl. eapply Forall_impl; [done|]. simpl. intros; lia.
  - by rewrite Hl.
  - lia.
Qed.

Lemma subscribe_unfold cb sel eq s :
  subscribe cb sel eq s =
    (Ok (next s),
     mkStore (value s)
       (set_add (next s)
          (mkEntry cb sel (default (fun a b => Ok (Object_is a b)) eq))
          (listeners s))
       (version s) (S (next s)) (calls s)).
Proof. reflexivity. Qed.

Lemma set_add_fresh a entry ls :
  Forall (fun e => (e.1 < a)%nat) ls → set_add a entry ls = ls ++ [(a, entry)].
Proof.
  intros H. unfold set_add. rewrite bool_decide_eq_false_2; [done|].
  intros Hin. apply list_elem_of_fmap in Hin as ([a' e'] & -> & Hin).
  rewrite Forall_forall in H. apply H in Hin. simpl in Hin. lia.
Qed.

Lemma subscribe_wf_unfold cb sel eq s :
  wf s →
  subscribe cb sel eq s =
    (Ok (next s),
     mkStore (value s)
       (listeners s ++
          [(next s, mkEntry cb sel (default (fun a b => Ok (Object_is a b)) eq))])
       (version s) (S (next s)) (calls s)).
Proof.
  intros [_ He _ _]. rewrite subscribe_unfold. by rewrite set_add_fresh.
Qed.

Lemma wf_subscribe cb sel eq s : wf s → wf (subscribe cb sel eq s).2.
Proof.
  intros Hwf. rewrite subscribe_wf_unfold by done.
  destruct Hwf as [Hv He Hn Hver]. split; simpl; [lia| | |done].
  - apply Forall_app. split.
    + eapply Forall_impl; [done|]. simpl. intros; lia.
    + constructor; [simpl; lia|constructor].
  - rewrite fmap_app. apply NoDup_app. split_and!; [done| |].
    + intros a Ha Ha'. simpl in Ha'. apply list_elem_of_singleton in Ha'.
      subst a. apply list_elem_of_fmap in Ha as ([a' e'] & Heq & Hin).
      rewrite Forall_forall in He. apply He in Hin. simpl in *. lia.
    + simpl. apply NoDup_singleton.
Qed.

Lemma unsubscribe_unfold a s :
  unsubscribe a s =
    (Ok (bool_decide (a ∈ (listeners s).*1)),
     mkStore (value s) (set_delete a (listeners s)) (version s) (next s)
             (calls s)).
Proof. reflexivity. Qed.

Lemma wf_unsubscribe a s : wf s → wf (unsubscribe a s).2.
Proof.
  intros [Hv He Hn Hver]. rewrite unsubscribe_unfold.
  split; simpl; [done| | |done].
  - unfold set_delete. rewrite Forall_forall in He |- *.
    intros e Hin. apply list_elem_of_filter in Hin as [_ Hin]. by apply He.
  - unfold set_delete. eapply sublist_NoDup; [done|].
    apply fmap_sublist, sublist_filter.
Qed.

Lemma wf_step s op : wf s → wf (step s op).
Proof.
  intros Hs. destruct op; simpl.
  - by apply wf_set.
  - by apply wf_subscribe.
  - by apply wf_unsubscribe.
Qed.

Lemma wf_run ops s : wf s → wf (run ops s).
Proof.
  revert s. induction ops as [|op ops IH]; intros s Hs; [done|].
  simpl. by apply IH, wf_step.
Qed.

(** ** [set] and [get] *)

Lemma lookup_spread value0 (P : gmap string Value) key :
  spread value0 P !! key =
    match P !! key with
    | Some v => Some v
    | None => fields value0 !! key
    end.
Proof.
  unfold spread. destruct (P !! key) as [v|] eqn:HP.
  - by apply lookup_union_Some_l.
  - by apply lookup_union_r.
Qed.

(** C1. When [set] is given a partial state [P] and returns, or is given
    an updater that returns [P] for the current state and returns, [get]
    then returns the one-level merge of the previous state with [P]: a
    field named in [P] has the value [P] gives it, were it a nested
    object, and any other field is as it was in the previous state. *)
Theorem set_get_merge (nextState : SetArg) (P : gmap string Value)
    (s s' : Store) :
  nextState = Partial P
  ∨ (∃ f, nextState = Updater f ∧ f (value s) = Ok P) →
  set nextState s = (Ok tt, s') →
  ∃ st,
    get s' = (Ok st, s')
    ∧ fields st = P ∪ fields (value s)
    ∧ (∀ key v, P !! key = Some v → fields st !! key = Some v)
    ∧ (∀ key, P !! key = None → fields st !! key = fields (value s) !! key).
Proof.
  intros Harg H.
  assert (resolve nextState (value s) = Ok P) as HP.
  { destruct Harg as [->|(f & -> & Hf)]; [done|exact Hf]. }
  rewrite set_unfold, HP in H.
  exists (newState s P).
  assert (value s' = newState s P) as Hvalue.
  { destruct (collect _ _ _ _) as [[|cb q]|e]; [| |done].
    - by injection H as <-.
    - destruct (truthy (version s));
        [injection H as _ <-|injection H as <-]; done. }
  split_and!.
  - unfold get, gets. by rewrite Hvalue.
  - done.
  - intros key v Hkey. simpl. by rewrite lookup_spread, Hkey.
  - intros key Hkey. simpl. by rewrite lookup_spread, Hkey.
Qed.

Lemma set_get_merge_witness :
  let P : gmap string Value := {[ "count" := num 1 ]} in
  let s1 := (set (Partial P) Examples.store0).2 in
  let s2 := (set Examples.increment Examples.store0).2 in
  (set (Partial P) Examples.store0 = (Ok tt, s1)
   ∧ ∃ st, get s1 = (Ok st, s1)
           ∧ fields st = {[ "count" := num 1; "name" := VStr "x" ]})
  ∧ (set Examples.increment Examples.store0 = (Ok tt, s2)
     ∧ ∃ st, get s2 = (Ok st, s2)
             ∧ fields st = {[ "count" := num 1; "name" := VStr "x" ]}).
Proof.
  intros P s1 s2.
  assert (set (Partial P) Examples.store0 = (Ok tt, s1)) as H1
    by (vm_compute; reflexivity).
  assert (set Examples.increment Examples.store0 = (Ok tt, s2)) as H2
    by (vm_compute; reflexivity).
  split.
  - split; [exact H1|].
    destruct (set_get_merge (Partial P) P Examples.store0 s1
                (or_introl eq_refl) H1) as (st & Hget & Hfields & _).
    exists st. split; [exact Hget|].
    rewrite Hfields. vm_compute. reflexivity.
  - split; [exact H2|].
    destruct (set_get_merge Examples.increment P Examples.store0 s2) as
      (st & Hget & Hfields & _).
    + right. eexists. split; [reflexivity|]. vm_compute. reflexivity.
    + exact H2.
    + exists st. split; [exact Hget|].
      rewrite Hfields. vm_compute. reflexivity.
Defined.

(** The first scenario of the specification: after [set({ count: 1 })] on
    the store created with [{ count: 0, name: "x" }], [get()] returns
    [{ count: 1, name: "x" }]. *)
Example scenario_set_count :
  fields <$> (get (set (Partial {[ "count" := num 1 ]}) Examples.store0).2).1
  = Ok {[ "count" := num 1; "name" := VStr "x" ]}.
Proof. vm_compute. reflexivity. Qed.

(** The same through an updater function. *)
Example scenario_updater :
  fields <$> (get (set Examples.increment Examples.store0).2).1
  = Ok {[ "count" := num 1; "name" := VStr "x" ]}.
Proof. vm_compute. reflexivity. Qed.

(** The merge is one level deep: a nested object named in the update
    replaces the previous one whole. *)
Example scenario_no_deep_merge :
  fields <$>
    (get (set (Partial {[ "user" := VPlain 5 {[ "age" := num 31 ]} ∅ ]})
              Examples.nested).2).1
  = Ok {[ "user" := VPlain 5 {[ "age" := num 31 ]} ∅; "count" := num 0 ]}.
Proof. vm_compute. reflexivity. Qed.

(** ** Who is notified by [set] *)

Lemma invoked_take q : ∃ n, invoked q = take n q.
Proof.
  induction q as [|cb rest [n IH]]; simpl.
  - by exists 0.
  - destruct (cb_outcome cb).
    + exists (S n). simpl. by rewrite IH.
    + by exists 1.
Qed.

Lemma set_calls nextState s :
  ∃ es,
    calls (set nextState s).2 = calls s ++ callbacks es
    ∧ es `sublist_of` listeners s
    ∧ Forall (fun e => ∃ P, resolve nextState (value s) = Ok P
                ∧ is_changed (newState s P) (value s) e.2 = true) es.
Proof.
  assert (∀ cs : list Callback, cs = cs ++ callbacks []) as Hnil
    by (intros; simpl; by rewrite app_nil_r).
  rewrite set_unfold.
  destruct (resolve nextState (value s)) as [P|e]; simpl.
  2: { exists []. split_and!; [apply Hnil|apply sublist_nil_l|constructor]. }
  destruct (collect _ _ _ _) as [q|e] eqn:Hq; simpl.
  2: { exists []. split_and!; [apply Hnil|apply sublist_nil_l|constructor]. }
  apply collect_ok in Hq as [Hq _]. simpl in Hq.
  destruct q as [|cb q]; simpl.
  { exists []. split_and!; [apply Hnil|apply sublist_nil_l|constructor]. }
  destruct (truthy (version s)); simpl.
  2: { exists []. split_and!; [apply Hnil|apply sublist_nil_l|constructor]. }
  destruct (invoked_take (cb :: q)) as [n Hn].
  exists (take n (notified (newState s P) (value s) (listeners s))).
  split_and!.
  - change (cb :: match cb_outcome cb with Ok _ => invoked q | Throw _ => [] end)
      with (invoked (cb :: q)).
    rewrite Hn, Hq. unfold callbacks. by rewrite fmap_take.
  - etrans; [apply sublist_take|apply notified_sublist].
  - apply Forall_take. eapply Forall_impl; [apply notified_changed|].
    intros e He. by exists P.
Qed.

(** C2. On a well-formed store, an update whose argument resolves to [P]
    and whose selectors and equality functions do not throw commits the
    merged state as a fresh object, whatever the queue. With a non-empty
    queue the version counter goes up by exactly one and the queued
    callbacks, which are those of the changed entries in the order of
    [listeners], are called in that order: all of them whenever [set]
    returns. With an empty queue the version counter and the call log are
    untouched. A later subscription goes to the end of [listeners]. *)
Theorem set_commits_and_notifies (nextState : SetArg) (s : Store)
    (P : gmap string Value) :
  wf s →
  resolve nextState (value s) = Ok P →
  Forall (fun e => evaluates (newState s P) (value s) e.2) (listeners s) →
  let q := callbacks (notified (newState s P) (value s) (listeners s)) in
  let r := set nextState s in
  value r.2 = newState s P
  ∧ state_ref (value r.2) ≠ state_ref (value s)
  ∧ (q ≠ [] →
       version r.2 = (version s + 1)%Z
       ∧ r.1 = outcome q
       ∧ calls r.2 = calls s ++ invoked q
       ∧ (r.1 = Ok tt → calls r.2 = calls s ++ q)
       ∧ (Forall returns q → r.1 = Ok tt ∧ calls r.2 = calls s ++ q))
  ∧ (q = [] →
       version r.2 = version s ∧ calls r.2 = calls s ∧ r.1 = Ok tt)
  ∧ (∀ cb sel eq, ∃ entry,
       callback entry = cb
       ∧ listeners (subscribe cb sel eq s).2 = listeners s ++ [(next s, entry)]).
Proof.
  intros Hwf HP Hev q r.
  assert (∀ cb sel eq, ∃ entry,
       callback entry = cb
       ∧ listeners (subscribe cb sel eq s).2 = listeners s ++ [(next s, entry)])
    as Horder.
  { intros cb sel eq. rewrite subscribe_wf_unfold by done.
    eexists (mkEntry cb sel _). split; reflexivity. }
  subst r. rewrite set_unfold, HP.
  rewrite (collect_evaluates _ _ _ [] Hev). simpl. fold q.
  assert (truthy (version s) = true) as Htruthy.
  { unfold truthy. destruct Hwf as [_ _ _ Hver].
    apply negb_true_iff, Z.eqb_neq. lia. }
  assert (state_ref (newState s P) ≠ state_ref (value s)) as Hfresh.
  { destruct Hwf as [Hv _ _ _]. simpl. lia. }
  destruct q as [|cb q'] eqn:Hq.
  - simpl. split_and!; [done|done|done|done|done].
  - rewrite Htruthy. simpl. split_and!; [done|done| |done|done].
    intros _. split_and!; [done|done|done| |].
    + intros Hok. f_equal.
      change (invoked (cb :: q') = cb :: q'). by apply outcome_ok_invoked.
    + intros Hret. apply outcome_returns in Hret as [Hout Hinv].
      split; [done|]. f_equal. exact Hinv.
Qed.

Lemma wf_counting : wf Examples.counting.
Proof. apply wf_subscribe, wf_createStore. Qed.

Lemma wf_watching : wf Examples.watching.
Proof. apply wf_subscribe, wf_createStore. Qed.

Lemma set_commits_and_notifies_witness :
  let s := Examples.counting in
  let nextState := Partial {[ "count" := num 1 ]} in
  let P : gmap string Value := {[ "count" := num 1 ]} in
  let q := callbacks (notified (newState s P) (value s) (listeners s)) in
  let r := set nextState s in
  q = [Examples.listener 7]
  ∧ value r.2 = newState s P
  ∧ state_ref (value r.2) ≠ state_ref (value s)
  ∧ (q ≠ [] →
       version r.2 = (version s + 1)%Z
       ∧ r.1 = outcome q
       ∧ calls r.2 = calls s ++ invoked q
       ∧ (r.1 = Ok tt → calls r.2 = calls s ++ q)
       ∧ (Forall returns q → r.1 = Ok tt ∧ calls r.2 = calls s ++ q))
  ∧ (q = [] →
       version r.2 = version s ∧ calls r.2 = calls s ∧ r.1 = Ok tt)
  ∧ (∀ cb sel eq, ∃ entry,
       callback entry = cb
       ∧ listeners (subscribe cb sel eq s).2 = listeners s ++ [(next s, entry)]).
Proof.
  intros s nextState P q r. split; [vm_compute; reflexivity|].
  apply (set_commits_and_notifies nextState s P).
  - exact wf_counting.
  - reflexivity.
  - repeat constructor. exists true. vm_compute. reflexivity.
Defined.

(** C3. During one update of a well-formed store the calls made are the
    callbacks of a list [es] of registered entries, each entry taken at
    most once: for each of them the equality function returned false on the
    selector's values for the new and the old state, and an entry for which
    it returns true is not among them. An entry subscribed without an
    equality function compares with [Object.is]. *)
Theorem notified_once_only_if_changed (nextState : SetArg) (s : Store) :
  wf s →
  (∃ es : list (addr * Entry),
     calls (set nextState s).2 = calls s ++ callbacks es
     ∧ es `sublist_of` listeners s
     ∧ NoDup es.*1
     ∧ Forall (fun e => ∃ P a b,
                 resolve nextState (value s) = Ok P
                 ∧ selector e.2 (newState s P) = Ok a
                 ∧ selector e.2 (value s) = Ok b
                 ∧ equalityFn e.2 a b = Ok false) es
     ∧ ∀ e P a b,
         resolve nextState (value s) = Ok P →
         selector e.2 (newState s P) = Ok a →
         selector e.2 (value s) = Ok b →
         equalityFn e.2 a b = Ok true →
         e ∉ es)
  ∧ ∀ cb sel,
      listeners (subscribe cb sel None s).2
      = listeners s ++ [(next s, mkEntry cb sel (fun a b => Ok (Object_is a b)))].
Proof.
  intros Hwf. split.
  - destruct (set_calls nextState s) as (es & Hcalls & Hsub & Hes).
    assert (Forall (fun e => ∃ P a b,
                 resolve nextState (value s) = Ok P
                 ∧ selector e.2 (newState s P) = Ok a
                 ∧ selector e.2 (value s) = Ok b
                 ∧ equalityFn e.2 a b = Ok false) es) as Hfalse.
    { eapply Forall_impl; [exact Hes|]. intros e (P & HP & Hch).
      apply is_changed_true in Hch as (a & b & Ha & Hb & Heq).
      by exists P, a, b. }
    exists es. split_and!; [done|done| |done|].
    + destruct Hwf as [_ _ Hnodup _].
      eapply sublist_NoDup; [exact Hnodup|]. by apply fmap_sublist.
    + intros e P a b HP Ha Hb Heq Hin.
      rewrite Forall_forall in Hfalse.
      destruct (Hfalse e Hin) as (P' & a' & b' & HP' & Ha' & Hb' & Heq').
      congruence.
  - intros cb sel. by rewrite subscribe_wf_unfold.
Qed.

Lemma notified_once_only_if_changed_witness :
  let s := Examples.counting in
  let nextState := Partial {[ "count" := num 1 ]} in
  (∃ es : list (addr * Entry),
     calls (set nextState s).2 = calls s ++ callbacks es
     ∧ es `sublist_of` listeners s
     ∧ NoDup es.*1
     ∧ Forall (fun e => ∃ P a b,
                 resolve nextState (value s) = Ok P
                 ∧ selector e.2 (newState s P) = Ok a
                 ∧ selector e.2 (value s) = Ok b
                 ∧ equalityFn e.2 a b = Ok false) es
     ∧ ∀ e P a b,
         resolve nextState (value s) = Ok P →
         selector e.2 (newState s P) = Ok a →
         selector e.2 (value s) = Ok b →
         equalityFn e.2 a b = Ok true →
         e ∉ es)
  ∧ ∀ cb sel,
      listeners (subscribe cb sel None s).2
      = listeners s ++ [(next s, mkEntry cb sel (fun a b => Ok (Object_is a b)))].
Proof.
  intros s nextState.
  exact (notified_once_only_if_changed nextState s wf_counting).
Defined.

(** ** Updates that throw *)

Lemma throws_changed new old entry e :
  throws new old entry e → changed new old entry = Throw e.
Proof.
  rewrite changed_cases.
  intros [H|[(a & Ha & H)|(a & b & Ha & Hb & H)]].
  - by rewrite H.
  - by rewrite Ha, H.
  - by rewrite Ha, Hb, H.
Qed.

(** C8. When the selector or the equality function of a registered entry
    throws [e] during [set] (the entries before it having been evaluated
    without a throw), [set] throws that same [e], and the store keeps its
    state: [get] returns the value it returned before, and the version
    counter, the listeners and the call log are as before. *)
Theorem set_throw_keeps_state (nextState : SetArg) (s : Store)
    (P : gmap string Value) (pre post : list (addr * Entry)) (a : addr)
    (entry : Entry) (e : Exn) :
  resolve nextState (value s) = Ok P →
  listeners s = pre ++ (a, entry) :: post →
  Forall (fun x => evaluates (newState s P) (value s) x.2) pre →
  throws (newState s P) (value s) entry e →
  let r := set nextState s in
  r.1 = Throw e
  ∧ (get r.2).1 = (get s).1
  ∧ value r.2 = value s
  ∧ version r.2 = version s
  ∧ listeners r.2 = listeners s
  ∧ calls r.2 = calls s.
Proof.
  intros HP Hls Hpre He r. subst r.
  rewrite set_unfold, HP, Hls.
  rewrite (collect_throw _ _ pre a entry post [] e Hpre (throws_changed _ _ _ _ He)).
  by simpl.
Qed.

Lemma wf_naming : wf Examples.naming.
Proof. apply wf_subscribe, wf_createStore. Qed.

Lemma set_throw_keeps_state_witness :
  let s := Examples.naming in
  let r := set (Partial {[ "user" := VUndefined ]}) s in
  r.1 = Throw Examples.TypeError
  ∧ (get r.2).1 = (get s).1
  ∧ value r.2 = value s
  ∧ version r.2 = version s
  ∧ listeners r.2 = listeners s
  ∧ calls r.2 = calls s.
Proof.
  intros s.
  apply (set_throw_keeps_state (Partial {[ "user" := VUndefined ]}) s
           {[ "user" := VUndefined ]} [] []
           2 (mkEntry (Examples.listener 7) Examples.select_user_name
                (fun a b => Ok (Object_is a b)))
           Examples.TypeError).
  - reflexivity.
  - reflexivity.
  - constructor.
  - left. vm_compute. reflexivity.
Defined.

(** ** Updates that change no field *)

Lemma Object_is_refl v : Object_is v v = true.
Proof.
  destruct v; simpl; try done; try (by apply bool_decide_eq_true_2);
    unfold same_ref; simpl; by apply bool_decide_eq_true_2.
Qed.

Lemma shallow_refl v : shallow v v = true.
Proof. unfold shallow. by rewrite Object_is_refl. Qed.







(** ** Subscribing and unsubscribing *)

Lemma set_delete_absent a ls : a ∉ ls.*1 → set_delete a ls = ls.
Proof.
  unfold set_delete. induction ls as [|[a' e'] rest IH]; intros Ha; [done|].
  rewrite fmap_cons, not_elem_of_cons in Ha. destruct Ha as [Hne Hrest].
  rewrite filter_cons_True by (simpl in *; congruence).
  by rewrite IH.
Qed.



Lemma set_delete_app a ls1 ls2 :
  set_delete a (ls1 ++ ls2) = set_delete a ls1 ++ set_delete a ls2.
Proof. apply filter_app. Qed.

Lemma entries_below s a : wf s → (next s ≤ a)%nat → a ∉ (listeners s).*1.
Proof.
  intros [_ He _ _] Ha Hin.
  apply list_elem_of_fmap in Hin as (e & -> & Hin).
  rewrite Forall_forall in He. apply He in Hin. simpl in Hin. lia.
Qed.



Lemma step_next_mono s op : (next s ≤ next (step s op))%nat.
Proof.
  destruct op as [nextState|cb sel eq|b]; cbn [step].
  - by destruct (set_frame nextState s) as (_ & Hnext & _).
  - rewrite subscribe_unfold. simpl. lia.
  - rewrite unsubscribe_unfold. simpl. lia.
Qed.

Lemma run_next_mono ops s : (next s ≤ next (run ops s))%nat.
Proof.
  revert s. induction ops as [|op ops IH]; intros s; [done|].
  simpl. etrans; [apply (step_next_mono s op)|apply IH].
Qed.

(** The address that [subscribe] returned stays allocated, whatever is
    done with the store afterwards. *)
Lemma subscribed_allocated cb sel eq ops s :
  (next s < next (run ops (subscribe cb sel eq s).2))%nat.
Proof.
  pose proof (run_next_mono ops (subscribe cb sel eq s).2) as H.
  assert (next (subscribe cb sel eq s).2 = S (next s)) as Hn
    by (by rewrite subscribe_unfold).
  lia.
Qed.



Lemma notified_app new old ls1 ls2 :
  notified new old (ls1 ++ ls2) = notified new old ls1 ++ notified new old ls2.
Proof. apply filter_app. Qed.

Lemma set_notifies nextState s P :
  (1 ≤ version s)%Z →
  resolve nextState (value s) = Ok P →
  Forall (fun e => evaluates (newState s P) (value s) e.2) (listeners s) →
  Forall returns (callbacks (notified (newState s P) (value s) (listeners s))) →
  (set nextState s).1 = Ok tt
  ∧ calls (set nextState s).2
    = calls s ++ callbacks (notified (newState s P) (value s) (listeners s)).
Proof.
  intros Hver HP Hev Hret. rewrite set_unfold, HP.
  rewrite (collect_evaluates _ _ _ [] Hev). simpl.
  apply outcome_returns in Hret as [Hout Hinv].
  destruct (callbacks _) as [|cb q] eqn:Hq; simpl.
  - by rewrite app_nil_r.
  - assert (truthy (version s) = true) as ->.
    { unfold truthy. apply negb_true_iff, Z.eqb_neq. lia. }
    simpl. split; [exact Hout|]. f_equal. exact Hinv.
Qed.

(** C10. Subscribing twice with the same callback, selector and equality
    function registers two entries at two addresses. An update that changes
    the selected value calls the callback once for each of them, after the
    callbacks of the entries registered before. Each of the two thunks
    removes the entry of its own call only, and the entry that stays is
    still notified. *)
Theorem subscribe_twice_distinct (cb : Callback) (sel : SelectorFn)
    (eq : option EqualityFn) (s : Store) :
  wf s →
  let entry := mkEntry cb sel (default (fun a b => Ok (Object_is a b)) eq) in
  let a1 := next s in
  let a2 := S (next s) in
  let s1 := (subscribe cb sel eq s).2 in
  let s2 := (subscribe cb sel eq s1).2 in
  (subscribe cb sel eq s).1 = Ok a1
  ∧ (subscribe cb sel eq s1).1 = Ok a2
  ∧ a1 ≠ a2
  ∧ listeners s2 = listeners s ++ [(a1, entry); (a2, entry)]
  ∧ listeners (unsubscribe a1 s2).2 = listeners s ++ [(a2, entry)]
  ∧ listeners (unsubscribe a2 s2).2 = listeners s ++ [(a1, entry)]
  ∧ ∀ nextState P,
      resolve nextState (value s) = Ok P →
      Forall (fun e => evaluates (newState s2 P) (value s) e.2) (listeners s) →
      changed (newState s2 P) (value s) entry = Ok true →
      returns cb →
      Forall returns
        (callbacks (notified (newState s2 P) (value s) (listeners s))) →
      calls (set nextState s2).2
      = calls s ++ callbacks (notified (newState s2 P) (value s) (listeners s))
          ++ [cb; cb]
      ∧ calls (set nextState (unsubscribe a1 s2).2).2
        = calls s ++ callbacks (notified (newState s2 P) (value s) (listeners s))
            ++ [cb]
      ∧ calls (set nextState (unsubscribe a2 s2).2).2
        = calls s ++ callbacks (notified (newState s2 P) (value s) (listeners s))
            ++ [cb].
Proof.
  intros Hwf entry a1 a2 s1 s2.
  pose proof (wf_subscribe cb sel eq s Hwf) as Hwf1. fold s1 in Hwf1.
  pose proof (wf_subscribe cb sel eq s1 Hwf1) as Hwf2. fold s2 in Hwf2.
  pose proof (subscribe_wf_unfold cb sel eq s Hwf) as E1.
  pose proof (subscribe_wf_unfold cb sel eq s1 Hwf1) as E2.
  assert (s1 = mkStore (value s) (listeners s ++ [(a1, entry)]) (version s)
                 (S (next s)) (calls s)) as Hs1.
  { unfold s1. by rewrite E1. }
  assert (s2 = mkStore (value s) (listeners s ++ [(a1, entry); (a2, entry)])
                 (version s) (S (S (next s))) (calls s)) as Hs2.
  { unfold s2. rewrite E2, Hs1. simpl. by rewrite <- app_assoc. }
  assert (a1 ∉ (listeners s).*1) as Hout1 by (apply entries_below; [done|lia]).
  assert (a2 ∉ (listeners s).*1) as Hout2
    by (apply entries_below; [done|unfold a2; lia]).
  assert (a1 ≠ a2) as Hne by (unfold a1, a2; lia).
  assert (listeners (unsubscribe a1 s2).2 = listeners s ++ [(a2, entry)]) as Hu1.
  { rewrite unsubscribe_unfold, Hs2. cbn [snd listeners].
    rewrite set_delete_app, set_delete_absent by done.
    unfold set_delete.
    rewrite filter_cons_False by (simpl; congruence).
    rewrite filter_cons_True by (simpl; congruence). done. }
  assert (listeners (unsubscribe a2 s2).2 = listeners s ++ [(a1, entry)]) as Hu2.
  { rewrite unsubscribe_unfold, Hs2. cbn [snd listeners].
    rewrite set_delete_app, set_delete_absent by done.
    unfold set_delete.
    rewrite filter_cons_True by (simpl; congruence).
    rewrite filter_cons_False by (simpl; congruence). done. }
  split_and!.
  - by rewrite E1.
  - rewrite E2, Hs1. done.
  - done.
  - by rewrite Hs2.
  - done.
  - done.
  - intros nextState P HP Hev Hch Hcb Hret.
    assert (is_changed (newState s2 P) (value s) entry = true) as Hic
      by (unfold is_changed; by rewrite Hch).
    assert (evaluates (newState s2 P) (value s) entry) as Hentry
      by (by exists true).
    assert (∀ t : Store,
              value t = value s → next t = next s2 → version t = version s →
              calls t = calls s →
              ∀ tail, listeners t = listeners s ++ tail →
              Forall (fun e => e.2 = entry) tail →
              calls (set nextState t).2
              = calls s
                ++ callbacks (notified (newState s2 P) (value s) (listeners s))
                ++ ((fun _ => cb) <$> tail)) as Hgen.
    { intros t Hv Hn Hver Hc tail Hl Htail.
      assert (newState t P = newState s2 P) as Hnew.
      { unfold newState. rewrite Hv, Hn. reflexivity. }
      assert (notified (newState s2 P) (value s) tail = tail) as Htl.
      { clear Hl. induction Htail as [|[a e] rest He _ IH]; [done|].
        simpl in He. subst e. rewrite notified_cons, Hic. by rewrite IH. }
      assert (callbacks tail = (fun _ => cb) <$> tail) as Hcbs.
      { clear Hl Htl. unfold callbacks.
        induction Htail as [|[a e] rest He _ IH]; [done|].
        simpl in He. subst e. rewrite !fmap_cons. by rewrite IH. }
      destruct (set_notifies nextState t P) as [_ Hcalls].
      - rewrite Hver. by destruct Hwf.
      - by rewrite Hv.
      - rewrite Hnew, Hv, Hl. apply Forall_app. split; [done|].
        eapply Forall_impl; [exact Htail|]. intros e ->. done.
      - rewrite Hnew, Hv, Hl, notified_app, Htl. unfold callbacks at 1.
        rewrite fmap_app. apply Forall_app. split; [done|].
        fold (callbacks tail). rewrite Hcbs.
        rewrite Forall_fmap. apply Forall_forall. intros e _. exact Hcb.
      - rewrite Hcalls, Hnew, Hv, Hl, Hc, notified_app, Htl.
        unfold callbacks at 1. rewrite fmap_app.
        fold (callbacks tail). by rewrite Hcbs. }
    split_and!.
    + apply (Hgen s2 eq_refl eq_refl eq_refl eq_refl
               [(a1, entry); (a2, entry)]).
      * by rewrite Hs2.
      * by repeat constructor.
    + apply (Hgen (unsubscribe a1 s2).2 eq_refl eq_refl eq_refl eq_refl
               [(a2, entry)] Hu1).
      by repeat constructor.
    + apply (Hgen (unsubscribe a2 s2).2 eq_refl eq_refl eq_refl eq_refl
               [(a1, entry)] Hu2).
      by repeat constructor.
Qed.

Lemma subscribe_twice_distinct_witness :
  let cb := Examples.listener 7 in
  let sel := select_field "count" in
  let s := Examples.store0 in
  let s1 := (subscribe cb sel None s).2 in
  let s2 := (subscribe cb sel None s1).2 in
  let nextState := Partial {[ "count" := num 1 ]} in
  let P : gmap string Value := {[ "count" := num 1 ]} in
  calls (set nextState s2).2
  = calls s ++ callbacks (notified (newState s2 P) (value s) (listeners s))
      ++ [cb; cb]
  ∧ calls (set nextState (unsubscribe (next s) s2).2).2
    = calls s ++ callbacks (notified (newState s2 P) (value s) (listeners s))
        ++ [cb]
  ∧ calls (set nextState (unsubscribe (S (next s)) s2).2).2
    = calls s ++ callbacks (notified (newState s2 P) (value s) (listeners s))
        ++ [cb].
Proof.
  intros cb sel s s1 s2 nextState P.
  destruct (subscribe_twice_distinct cb sel None s
              (wf_createStore Examples.initial))
    as (_ & _ & _ & _ & _ & _ & H).
  apply (H nextState P).
  - reflexivity.
  - constructor.
  - vm_compute. reflexivity.
  - reflexivity.
  - constructor.
Defined.

(** Two subscriptions of one callback, concretely: the update calls it
    twice. *)
Example scenario_shared_callback :
  let cb := Examples.listener 7 in
  let sel := select_field "count" in
  let s1 := (subscribe cb sel None Examples.store0).2 in
  let s2 := (subscribe cb sel None s1).2 in
  calls (set (Partial {[ "count" := num 1 ]}) s2).2 = [cb; cb].
Proof. vm_compute. reflexivity. Qed.

(** ** The read function of the hook *)

(** C4. When the selector returns on the current state, a read whose
    cached version equals the store's version returns the cached snapshot
    and leaves both refs as they are; a read whose cached version differs
    returns the selector's value for the current state and stores that
    value and the store's version in the refs. A second read of the same
    store returns what the first one returned and changes nothing. *)
Theorem getSnapshot_by_version (store : Store) (selector : SelectorFn)
    (refs : Refs) (v : Value) :
  applySelector store (Some selector) = Ok v →
  (lastVersionRef refs = version store →
     getSnapshot store selector refs = (Ok (lastSnapshotRef refs), refs))
  ∧ (lastVersionRef refs ≠ version store →
       getSnapshot store selector refs = (Ok v, mkRefs v (version store)))
  ∧ (∀ r refs',
       getSnapshot store selector refs = (r, refs') →
       getSnapshot store selector refs' = (r, refs')).
Proof.
  intros Hv. unfold getSnapshot. rewrite Hv. split_and!.
  - intros Heq. by rewrite bool_decide_eq_true_2.
  - intros Hne. by rewrite bool_decide_eq_false_2.
  - intros r refs'. case_bool_decide as Hcase.
    + intros [= <- <-]. by rewrite bool_decide_eq_true_2.
    + intros [= <- <-]. simpl. by rewrite bool_decide_eq_true_2.
Qed.

Lemma getSnapshot_by_version_witness :
  let store := (set (Partial {[ "count" := num 1 ]}) Examples.counting).2 in
  let selector := select_field "count" in
  let refs := mkRefs (num 0) 1 in
  getSnapshot store selector refs = (Ok (num 1), mkRefs (num 1) 2)
  ∧ ((lastVersionRef refs = version store →
        getSnapshot store selector refs = (Ok (lastSnapshotRef refs), refs))
     ∧ (lastVersionRef refs ≠ version store →
          getSnapshot store selector refs
          = (Ok (num 1), mkRefs (num 1) (version store)))
     ∧ (∀ r refs',
          getSnapshot store selector refs = (r, refs') →
          getSnapshot store selector refs' = (r, refs'))).
Proof.
  intros store selector refs. split.
  - vm_compute. reflexivity.
  - apply (getSnapshot_by_version store selector refs (num 1)).
    vm_compute. reflexivity.
Defined.

(** C6, as stated, fails. The refs are seeded on the store created with
    [{ user: { name: "John" } }], for the selector [s => s.user.name].
    [set({ user: undefined })] then notifies nobody, so the version stays
    at 1, equal to the cached one; the next read still applies the selector
    to the current state and throws its TypeError instead of returning the
    cached snapshot. *)
Lemma getSnapshot_same_version_applies_selector :
  let store := (set (Partial {[ "user" := VUndefined ]}) Examples.with_user).2 in
  let refs := mkRefs (VStr "John") 1 in
  useStoreSelector_refs (Some Examples.with_user) Examples.select_user_name
  = Ok refs
  ∧ lastVersionRef refs = version store
  ∧ getSnapshot store Examples.select_user_name refs
    = (Throw Examples.TypeError, refs).
Proof. vm_compute. repeat split; reflexivity. Qed.

(** C6, amended. On a read whose cached version equals the store's
    version, the selector is first applied to the current state. If it
    throws, the read throws the same and the refs are unchanged; if it
    returns, its value is dropped: the read returns the cached snapshot and
    the refs are unchanged. *)
Theorem getSnapshot_same_version (store : Store) (selector : SelectorFn)
    (refs : Refs) :
  lastVersionRef refs = version store →
  getSnapshot store selector refs =
    match selector (value store) with
    | Ok _ => (Ok (lastSnapshotRef refs), refs)
    | Throw e => (Throw e, refs)
    end.
Proof.
  intros Heq. unfold getSnapshot, applySelector.
  destruct (selector (value store)); [|done].
  by rewrite bool_decide_eq_true_2.
Qed.

Lemma getSnapshot_same_version_witness :
  let store := (set (Partial {[ "name" := VStr "y" ]}) Examples.counting).2 in
  let refs := mkRefs (num 0) 1 in
  getSnapshot store select_state refs =
    match select_state (value store) with
    | Ok _ => (Ok (lastSnapshotRef refs), refs)
    | Throw e => (Throw e, refs)
    end.
Proof.
  intros store refs.
  apply (getSnapshot_same_version store select_state refs).
  vm_compute. reflexivity.
Defined.

(** ** The shallow comparator across kinds *)

(** An array and a value that is not an array, not the same object, are
    never shallowly equal. *)
Lemma shallow_array_other a b :
  Object_is a b = false → isArray a ≠ isArray b → shallow a b = false.
Proof.
  intros His Hkind. unfold shallow. rewrite His.
  destruct a, b; simpl in *; try done.
Qed.

(** C7 does not hold of the code beyond arrays. A [Date] and a [RegExp]
    without own enumerable properties are shallowly equal, whatever their
    time, source and flags; so are a [Map] and a [Set], whatever they
    contain; so are any of them and the empty plain object. *)
Theorem shallow_mixed_kinds_equal :
  (∀ a b t source flags h h',
     shallow (VDate a t ∅ h) (VRegExp b source flags ∅ h') = true)
  ∧ (∀ a b entries members h h',
       shallow (VMap a entries ∅ h) (VSet b members ∅ h') = true)
  ∧ (∀ a b entries h h',
       shallow (VMap a entries ∅ h) (VPlain b ∅ h') = true)
  ∧ shallow Examples.epoch Examples.regex_x = true
  ∧ shallow Examples.map_a1 Examples.set_5 = true.
Proof.
  split_and!.
  - intros a b t source flags h h'. unfold shallow. simpl.
    unfold same_ref. simpl. by destruct (bool_decide (a = b)).
  - intros a b entries members h h'. unfold shallow. simpl.
    unfold same_ref. simpl. by destruct (bool_decide (a = b)).
  - intros a b entries h h'. unfold shallow. simpl.
    unfold same_ref. simpl. by destruct (bool_decide (a = b)).
  - vm_compute. reflexivity.
  - vm_compute. reflexivity.
Qed.

(** ** The scenarios of the specification and of the test suite *)

(** Subscribed to [s => s.count]: [set({ name: "y" })] calls nothing. *)
Example scenario_other_field :
  let r := set (Partial {[ "name" := VStr "y" ]}) Examples.counting in
  r.1 = Ok tt ∧ calls r.2 = [] ∧ version r.2 = 1%Z
  ∧ fields (value r.2) = {[ "count" := num 0; "name" := VStr "y" ]}.
Proof. vm_compute. repeat split; reflexivity. Qed.

(** Two increments through an updater: the callback is called twice. *)
Example scenario_two_increments :
  let s2 := run [OpSet Examples.increment; OpSet Examples.increment]
                Examples.counting in
  calls s2 = [Examples.listener 7; Examples.listener 7]
  ∧ version s2 = 3%Z
  ∧ fields (value s2) !! "count" = Some (num 2).
Proof. vm_compute. repeat split; reflexivity. Qed.

(** Unsubscribe, then update the selected field: no call. *)
Example scenario_unsubscribed :
  let s2 := run [OpUnsubscribe 1; OpSet (Partial {[ "count" := num 1 ]})]
                Examples.counting in
  calls s2 = [] ∧ version s2 = 1%Z.
Proof. vm_compute. repeat split; reflexivity. Qed.

(** [equal] on the values of the fourth scenario. *)
Example scenario_shallow :
  shallow (VPlain 1 {[ "a" := num 1; "b" := num 2 ]} ∅)
          (VPlain 2 {[ "a" := num 1; "b" := num 2 ]} ∅) = true
  ∧ shallow (VPlain 1 {[ "a" := VPlain 3 {[ "b" := num 1 ]} ∅ ]} ∅)
            (VPlain 2 {[ "a" := VPlain 4 {[ "b" := num 1 ]} ∅ ]} ∅) = false
  ∧ shallow (VArray 1 [num 1; num 2]) (VArray 2 [num 1; num 2]) = true
  ∧ shallow (VArray 1 [num 1; num 2])
            (VPlain 2 {[ "0" := num 1; "1" := num 2 ]} ∅) = false
  ∧ shallow (VNum NaN) (VNum NaN) = true
  ∧ shallow VNull VUndefined = false.
Proof. vm_compute. repeat split; reflexivity. Qed.

(** * More of the code *)

Import Identity Usage Scenarios.

(** ** What the comparisons look at *)

Ltac key_cases :=
  first
    [ done
    | symmetry; apply bool_decide_eq_false_2; discriminate
    | apply bool_decide_ext; split; congruence
    | symmetry; apply bool_decide_eq_true_2; reflexivity ].

Lemma Object_is_key a b : Object_is a b = bool_decide (key a = key b).
Proof.
  destruct a, b; simpl; unfold same_ref; simpl; key_cases.
Qed.

Lemma same_value_zero_key a b :
  same_value_zero a b = bool_decide (zero_key a = zero_key b).
Proof.
  destruct a as [| | |x| | | | | | | | | |], b as [| | |y| | | | | | | | | |];
    simpl; unfold same_ref; simpl;
    try (destruct x); try (destruct y); simpl; key_cases.
Qed.

Lemma Object_is_sym a b : Object_is a b = Object_is b a.
Proof. rewrite !Object_is_key. apply bool_decide_ext. split; congruence. Qed.

Lemma Object_is_true a b : Object_is a b = true ↔ key a = key b.
Proof. rewrite Object_is_key. apply bool_decide_eq_true. Qed.

Lemma same_value_zero_true a b :
  same_value_zero a b = true ↔ zero_key a = zero_key b.
Proof. rewrite same_value_zero_key. apply bool_decide_eq_true. Qed.

Lemma number_strict_eq_sym x y : number_strict_eq x y = number_strict_eq y x.
Proof.
  destruct x, y; simpl; try done; apply bool_decide_ext; split; congruence.
Qed.

Lemma strict_eq_sym a b : strict_eq a b = strict_eq b a.
Proof.
  destruct a, b; simpl; try done; try apply number_strict_eq_sym;
    try (apply bool_decide_ext; split; congruence);
    unfold same_ref; simpl; apply bool_decide_ext; split; congruence.
Qed.

(** ** The comparator, kind by kind *)

(** X1. When one of the two values is not an object (a primitive, [null],
    [undefined] or a function), the comparator answers as [Object.is]
    does: NaN equals NaN, the two zeros differ, [null] and [undefined]
    differ, two functions are equal only when they are the same one. *)
Theorem shallow_non_object (a b : Value) :
  is_object a = false ∨ is_object b = false →
  shallow a b = Object_is a b.
Proof.
  intros H. unfold shallow.
  destruct (Object_is a b) eqn:His; [done|].
  destruct a, b; simpl in *; try done; destruct H; discriminate.
Qed.

Lemma shallow_non_object_witness :
  shallow (VNum (Zero false)) (VNum (Zero true))
  = Object_is (VNum (Zero false)) (VNum (Zero true))
  ∧ Object_is (VNum (Zero false)) (VNum (Zero true)) = false.
Proof.
  split.
  - apply (shallow_non_object (VNum (Zero false)) (VNum (Zero true))).
    left. reflexivity.
  - reflexivity.
Defined.

Lemma forallb_seq_lookup (f : nat → bool) n :
  forallb f (seq 0 n) = true ↔ ∀ i, (i < n)%nat → f i = true.
Proof.
  rewrite forallb_forall. split.
  - intros H i Hi. apply H, in_seq. lia.
  - intros H i Hi. apply in_seq in Hi. apply H. lia.
Qed.

Lemma arrays_compare l1 l2 :
  length l1 = length l2 →
  forallb (fun i => Object_is (default VUndefined (l1 !! i))
                              (default VUndefined (l2 !! i)))
          (seq 0 (length l1)) = true
  ↔ Forall2 (fun x y => Object_is x y = true) l1 l2.
Proof.
  intros Hlen. rewrite forallb_seq_lookup, Forall2_same_length_lookup. split.
  - intros H. split; [done|]. intros i x y Hx Hy.
    specialize (H i (lookup_lt_Some _ _ _ Hx)). by rewrite Hx, Hy in H.
  - intros [_ H] i Hi.
    destruct (lookup_lt_is_Some_2 l1 i Hi) as [x Hx].
    destruct (lookup_lt_is_Some_2 l2 i) as [y Hy]; [lia|].
    rewrite Hx, Hy. simpl. by eapply H.
Qed.

(** X2. Two arrays are shallowly equal exactly when they are the same
    array, or have the same length and, position by position, elements
    that [Object.is] holds of; an element that is itself an array or an
    object counts by its reference only. *)
Theorem shallow_arrays (a b : addr) (l1 l2 : list Value) :
  shallow (VArray a l1) (VArray b l2) = true
  ↔ a = b ∨ Forall2 (fun x y => Object_is x y = true) l1 l2.
Proof.
  unfold shallow. simpl. unfold same_ref. simpl.
  case_bool_decide as Hab.
  { split; [by left|done]. }
  case_bool_decide as Hlen; simpl.
  - unfold index. simpl. rewrite arrays_compare by done.
    split; [by right|]. by intros [?|?].
  - split; [done|]. intros [?|H]; [done|].
    by apply Forall2_length in H.
Qed.

Lemma keys_compare (p h q h' : gmap string Value) :
  (if negb (bool_decide (length (map_to_list p).*1 = length (map_to_list q).*1))
   then false
   else forallb (fun key => bool_decide (is_Some ((q ∪ h') !! key))
                   && Object_is (default VUndefined ((p ∪ h) !! key))
                                (default VUndefined ((q ∪ h') !! key)))
                (map_to_list p).*1) = true
  ↔ size p = size q
    ∧ ∀ k x, p !! k = Some x →
        ∃ y, (q ∪ h') !! k = Some y ∧ Object_is x y = true.
Proof.
  rewrite !length_fmap, !length_map_to_list.
  case_bool_decide as Hsize; simpl.
  - rewrite forallb_forall. split.
    + intros H. split; [done|]. intros k x Hk.
      assert (In k (map_to_list p).*1) as Hin.
      { apply list_elem_of_In, list_elem_of_fmap. exists (k, x).
        split; [done|]. by apply elem_of_map_to_list. }
      apply H in Hin. apply andb_true_iff in Hin as [Hq His].
      apply bool_decide_eq_true in Hq as [y Hy]. exists y. split; [done|].
      by rewrite (lookup_union_Some_l p h k x Hk), Hy in His.
    + intros [_ Hval] k Hin.
      apply list_elem_of_In, list_elem_of_fmap in Hin as ([k' x] & -> & Hin).
      apply elem_of_map_to_list in Hin. simpl.
      destruct (Hval k' x Hin) as (y & Hy & His).
      rewrite (lookup_union_Some_l p h k' x Hin), Hy. simpl. done.
  - split; [done|]. by intros [? _].
Qed.

Lemma keys_same (p q h' : gmap string Value) :
  dom h' ## dom p →
  (size p = size q
   ∧ ∀ k x, p !! k = Some x →
       ∃ y, (q ∪ h') !! k = Some y ∧ Object_is x y = true)
  ↔ (dom p = dom q
     ∧ ∀ k x y, p !! k = Some x → q !! k = Some y → Object_is x y = true).
Proof.
  intros Hdisj.
  assert (∀ k x, p !! k = Some x → h' !! k = None) as Hnone.
  { intros k x Hk. apply not_elem_of_dom. intros Hin.
    apply (Hdisj k Hin). apply elem_of_dom. by exists x. }
  split.
  - intros [Hsize Hval].
    assert (∀ k x, p !! k = Some x →
              ∃ y, q !! k = Some y ∧ Object_is x y = true) as Hq.
    { intros k x Hk. destruct (Hval k x Hk) as (y & Hy & His).
      exists y. split; [|done].
      apply lookup_union_Some_raw in Hy as [Hy|[_ Hy]]; [done|].
      by rewrite (Hnone k x Hk) in Hy. }
    split.
    + apply set_subseteq_size_eq.
      * intros k Hk. apply elem_of_dom in Hk as [x Hx].
        apply elem_of_dom. destruct (Hq k x Hx) as (y & Hy & _). by exists y.
      * rewrite !size_dom. lia.
    + intros k x y Hx Hy. destruct (Hq k x Hx) as (y' & Hy' & His).
      congruence.
  - intros [Hdom Hval]. split.
    + by rewrite <- !size_dom, Hdom.
    + intros k x Hx.
      assert (is_Some (q !! k)) as [y Hy].
      { apply elem_of_dom. rewrite <- Hdom. apply elem_of_dom. by exists x. }
      exists y. split; [by apply lookup_union_Some_l|by eapply Hval].
Qed.

(** X3. Two plain objects are shallowly equal exactly when they are the
    same object, or have as many enumerable own keys and every enumerable
    own key of the first is an own key of the second, enumerable or not,
    with values that [Object.is] holds of. When no key of the first is a
    non-enumerable own key of the second, this is to say that the two
    have the same enumerable own keys with such values. The comparison is
    one level deep: a nested object counts by its reference only. *)
Theorem shallow_plain (a b : addr) (p h q h' : gmap string Value) :
  (shallow (VPlain a p h) (VPlain b q h') = true
   ↔ a = b
     ∨ (size p = size q
        ∧ ∀ k x, p !! k = Some x →
            ∃ y, (q ∪ h') !! k = Some y ∧ Object_is x y = true))
  ∧ (dom h' ## dom p →
     shallow (VPlain a p h) (VPlain b q h') = true
     ↔ a = b
       ∨ (dom p = dom q
          ∧ ∀ k x y,
              p !! k = Some x → q !! k = Some y → Object_is x y = true)).
Proof.
  assert (shallow (VPlain a p h) (VPlain b q h') = true
          ↔ a = b
            ∨ (size p = size q
               ∧ ∀ k x, p !! k = Some x →
                   ∃ y, (q ∪ h') !! k = Some y ∧ Object_is x y = true))
    as Hgen.
  { unfold shallow. simpl. unfold same_ref. simpl.
    case_bool_decide as Hab.
    { split; [by left|done]. }
    unfold Object_keys, hasOwnProperty, get_prop, own. simpl.
    rewrite keys_compare. split; [by right|]. by intros [?|?]. }
  split; [exact Hgen|].
  intros Hdisj. rewrite Hgen, (keys_same p q h' Hdisj). done.
Qed.

Lemma shallow_plain_witness :
  let p : gmap string Value := {[ "a" := num 1; "b" := num 2 ]} in
  let q : gmap string Value := {[ "b" := num 2; "a" := num 1 ]} in
  let h' : gmap string Value := {[ "c" := num 3 ]} in
  shallow (VPlain 1 p ∅) (VPlain 2 q h') = true
  ↔ 1 = 2
    ∨ (dom p = dom q
       ∧ ∀ k x y, p !! k = Some x → q !! k = Some y → Object_is x y = true).
Proof.
  intros p q h'.
  destruct (shallow_plain 1 2 p ∅ q h') as [_ H].
  apply H. apply (bool_decide_unpack _). vm_compute. exact I.
Defined.

(** [shallow({ y: 2 }, Object.defineProperty({ x: 1 }, "y", { value: 2 }))]:
    equal, though the enumerable keys differ. *)
Example shallow_sees_hidden_keys :
  shallow (VPlain 1 {[ "y" := num 2 ]} ∅)
          (VPlain 2 {[ "x" := num 1 ]} {[ "y" := num 2 ]}) = true
  ∧ shallow (VPlain 2 {[ "x" := num 1 ]} {[ "y" := num 2 ]})
            (VPlain 1 {[ "y" := num 2 ]} ∅) = false.
Proof. vm_compute. split; reflexivity. Qed.

Lemma number_strict_eq_true t u :
  number_strict_eq t u = true
  ↔ t ≠ NaN ∧ (t = u ∨ ∃ s1 s2, t = Zero s1 ∧ u = Zero s2).
Proof.
  destruct t, u; simpl; rewrite ?bool_decide_eq_true;
    try (split; [done|intros [? [? | (? & ? & ? & ?)]]; congruence]);
    try (split; [intros ->; split; [done|by left]
                |intros [? [? | (? & ? & ? & ?)]]; congruence]).
  split; [|done]. intros _. split; [done|]. right. by eexists _, _.
Qed.

(** X4. Two [Date] objects are shallowly equal exactly when they are the
    same object or their times are equal numbers; their own properties
    are not looked at. An invalid date, whose time is NaN, equals no date
    but itself. Two [RegExp] objects with the same source are equal
    exactly when they are the same object or have the same flags. *)
Theorem shallow_dates_regexps :
  (∀ a b t u p q h h',
     shallow (VDate a t p h) (VDate b u q h') = true
     ↔ a = b ∨ (t ≠ NaN ∧ (t = u ∨ ∃ s1 s2, t = Zero s1 ∧ u = Zero s2)))
  ∧ (∀ a b u p q h h',
       shallow (VDate a NaN p h) (VDate b u q h') = bool_decide (a = b))
  ∧ (∀ a b source f1 f2 p q h h',
       shallow (VRegExp a source f1 p h) (VRegExp b source f2 q h') = true
       ↔ a = b ∨ f1 = f2).
Proof.
  split_and!.
  - intros a b t u p q h h'. unfold shallow. simpl. unfold same_ref. simpl.
    case_bool_decide as Hab.
    + split; [by left|done].
    + rewrite number_strict_eq_true. split; [by right|]. by intros [?|?].
  - intros a b u p q h h'. unfold shallow. simpl. unfold same_ref. simpl.
    by case_bool_decide.
  - intros a b source f1 f2 p q h h'. unfold shallow. simpl.
    unfold same_ref. simpl.
    case_bool_decide as Hab.
    + split; [by left|done].
    + rewrite bool_decide_eq_true. split.
      * intros H. right.
        apply (String.app_inj "/"), (String.app_inj source),
          (String.app_inj "/") in H. done.
      * intros [? | ->]; done.
Qed.

(** ** [Set] and [Map] *)

Lemma existsb_key (l : list Value) x :
  existsb (fun y => same_value_zero y x) l = true
  ↔ zero_key x ∈ zero_key <$> l.
Proof.
  rewrite existsb_exists, list_elem_of_fmap. split.
  - intros (y & Hin & Hy). exists y. split.
    + symmetry. by apply same_value_zero_true.
    + by apply list_elem_of_In.
  - intros (y & Hy & Hin). exists y. split.
    + by apply list_elem_of_In.
    + apply same_value_zero_true. by symmetry.
Qed.

Lemma keys_included_permutation (k1 k2 : list Key) :
  NoDup k1 → length k1 = length k2 → (∀ x, x ∈ k1 → x ∈ k2) → k1 ≡ₚ k2.
Proof.
  intros Hnd Hlen Hsub. apply submseteq_length_Permutation; [|lia].
  by apply NoDup_submseteq.
Qed.

Lemma sets_compare (l1 l2 : list Value) :
  NoDup (zero_key <$> l1) →
  (if negb (bool_decide (length l1 = length l2)) then false
   else forallb (fun x => existsb (fun y => same_value_zero y x) l2) l1) = true
  ↔ zero_key <$> l1 ≡ₚ zero_key <$> l2.
Proof.
  intros Hnd. case_bool_decide as Hlen; simpl.
  - rewrite forallb_forall. split.
    + intros H. apply keys_included_permutation; [done| |].
      * by rewrite !length_fmap.
      * intros k Hk. apply list_elem_of_fmap in Hk as (x & -> & Hx).
        apply existsb_key, H. by apply list_elem_of_In.
    + intros Hperm x Hx. apply existsb_key. rewrite <- Hperm.
      apply list_elem_of_fmap. exists x. split; [done|].
      by apply list_elem_of_In.
  - split; [done|]. intros Hperm. destruct Hlen.
    apply Permutation_length in Hperm. by rewrite !length_fmap in Hperm.
Qed.

(** X5. Two [Set] objects are shallowly equal exactly when they are the
    same object or hold the same members, whatever the order of
    insertion; members are told apart as [Set] itself does, an object by
    its reference. Own properties are not looked at. *)
Theorem shallow_sets (a b : addr) (l1 l2 : list Value)
    (p h q h' : gmap string Value) :
  well_formed (VSet a l1 p h) →
  shallow (VSet a l1 p h) (VSet b l2 q h') = true
  ↔ a = b ∨ zero_key <$> l1 ≡ₚ zero_key <$> l2.
Proof.
  intros Hwf. simpl in Hwf.
  unfold shallow. simpl. unfold same_ref. simpl.
  case_bool_decide as Hab.
  { split; [by left|done]. }
  unfold set_has. simpl. rewrite sets_compare by done.
  split; [by right|]. by intros [?|?].
Qed.

Lemma shallow_sets_witness :
  shallow (VSet 1 [num 1; num 2] ∅ ∅) (VSet 2 [num 2; num 1] ∅ ∅) = true
  ↔ 1 = 2 ∨ zero_key <$> [num 1; num 2] ≡ₚ zero_key <$> [num 2; num 1].
Proof.
  apply (shallow_sets 1 2 [num 1; num 2] [num 2; num 1] ∅ ∅ ∅ ∅).
  simpl. apply (bool_decide_unpack _). vm_compute. exact I.
Defined.

Lemma map_has_key b (l : list (Value * Value)) q h k :
  map_has (VMap b l q h) k = true ↔ zero_key k ∈ zero_key <$> l.*1.
Proof.
  unfold map_has. simpl.
  rewrite existsb_exists, list_elem_of_fmap. split.
  - intros ([k' v'] & Hin & Hk). exists k'. split.
    + symmetry. by apply same_value_zero_true.
    + apply list_elem_of_fmap. exists (k', v').
      split; [done|]. by apply list_elem_of_In.
  - intros (k' & Hk & Hin).
    apply list_elem_of_fmap in Hin as ([k'' v'] & -> & Hin).
    exists (k'', v'). split.
    + by apply list_elem_of_In.
    + apply same_value_zero_true. by symmetry.
Qed.

Lemma map_get_unique b (l : list (Value * Value)) q h k k' v' :
  NoDup (zero_key <$> l.*1) →
  (k', v') ∈ l →
  zero_key k' = zero_key k →
  map_get (VMap b l q h) k = v'.
Proof.
  unfold map_get. simpl. intros Hnd Hin Hk.
  induction l as [|[k0 v0] rest IH]; [by apply elem_of_nil in Hin|].
  simpl in Hnd. apply NoDup_cons in Hnd as [Hfresh Hnd].
  simpl. destruct (same_value_zero k0 k) eqn:Hk0.
  - apply same_value_zero_true in Hk0.
    apply elem_of_cons in Hin as [[= -> ->]|Hin]; [done|].
    destruct Hfresh. rewrite Hk0, <- Hk.
    apply list_elem_of_fmap. exists k'. split; [done|].
    apply list_elem_of_fmap. by exists (k', v').
  - apply elem_of_cons in Hin as [[= -> ->]|Hin].
    + apply same_value_zero_true in Hk. congruence.
    + by apply IH.
Qed.

Lemma maps_compare b b' (l1 l2 : list (Value * Value)) q q' h h' :
  NoDup (zero_key <$> l1.*1) →
  NoDup (zero_key <$> l2.*1) →
  (if negb (bool_decide (length l1 = length l2)) then false
   else forallb (fun kv => map_has (VMap b l2 q h) kv.1
                           && Object_is kv.2 (map_get (VMap b' l2 q' h') kv.1))
                l1) = true
  ↔ zero_key <$> l1.*1 ≡ₚ zero_key <$> l2.*1
    ∧ ∀ k1 v1 k2 v2,
        (k1, v1) ∈ l1 → (k2, v2) ∈ l2 → zero_key k1 = zero_key k2 →
        Object_is v1 v2 = true.
Proof.
  intros Hnd1 Hnd2. case_bool_decide as Hlen; simpl.
  - rewrite forallb_forall. split.
    + intros H.
      assert (∀ k v, (k, v) ∈ l1 →
                zero_key k ∈ zero_key <$> l2.*1
                ∧ Object_is v (map_get (VMap b' l2 q' h') k) = true) as H'.
      { intros k v Hin. apply list_elem_of_In, H in Hin.
        apply andb_true_iff in Hin as [Hhas Hval]. simpl in *.
        split; [by apply (map_has_key b l2 q h)|done]. }
      split.
      * apply keys_included_permutation; [done| |].
        -- by rewrite !length_fmap.
        -- intros x Hx. apply list_elem_of_fmap in Hx as (k & -> & Hk).
           apply list_elem_of_fmap in Hk as ([k' v] & -> & Hin).
           by apply (H' k' v).
      * intros k1 v1 k2 v2 Hin1 Hin2 Hk.
        destruct (H' k1 v1 Hin1) as [_ Hval].
        by rewrite (map_get_unique b' l2 q' h' k1 k2 v2) in Hval.
    + intros [Hperm Hval] [k v] Hin. apply list_elem_of_In in Hin. simpl.
      assert (zero_key k ∈ zero_key <$> l2.*1) as Hk.
      { rewrite <- Hperm. apply list_elem_of_fmap. exists k. split; [done|].
        apply list_elem_of_fmap. by exists (k, v). }
      apply andb_true_iff. split; [by apply map_has_key|].
      apply list_elem_of_fmap in Hk as (k2 & Hk2 & Hin2).
      apply list_elem_of_fmap in Hin2 as ([k2' v2] & -> & Hin2).
      simpl in Hk2.
      rewrite (map_get_unique b' l2 q' h' k k2' v2) by done.
      by apply (Hval k v k2' v2).
  - split; [done|]. intros [Hperm _]. destruct Hlen.
    apply Permutation_length in Hperm. by rewrite !length_fmap in Hperm.
Qed.

(** X6. Two [Map] objects are shallowly equal exactly when they are the
    same object, or hold the same keys, whatever the order of insertion,
    with values that [Object.is] holds of, key by key. Keys are told
    apart as [Map] itself does; a value that is an object counts by its
    reference only. *)
Theorem shallow_maps (a b : addr) (l1 l2 : list (Value * Value))
    (p h q h' : gmap string Value) :
  well_formed (VMap a l1 p h) →
  well_formed (VMap b l2 q h') →
  shallow (VMap a l1 p h) (VMap b l2 q h') = true
  ↔ a = b
    ∨ (zero_key <$> l1.*1 ≡ₚ zero_key <$> l2.*1
       ∧ ∀ k1 v1 k2 v2,
           (k1, v1) ∈ l1 → (k2, v2) ∈ l2 → zero_key k1 = zero_key k2 →
           Object_is v1 v2 = true).
Proof.
  intros Hwf1 Hwf2. simpl in Hwf1, Hwf2.
  unfold shallow. simpl. unfold same_ref. simpl.
  case_bool_decide as Hab.
  { split; [by left|done]. }
  rewrite (maps_compare b b l1 l2 q q h' h') by done.
  split; [by right|]. by intros [?|?].
Qed.

Lemma shallow_maps_witness :
  let l1 := [(VStr "a", num 1); (VStr "b", num 2)] in
  let l2 := [(VStr "b", num 2); (VStr "a", num 1)] in
  shallow (VMap 1 l1 ∅ ∅) (VMap 2 l2 ∅ ∅) = true
  ↔ 1 = 2
    ∨ (zero_key <$> l1.*1 ≡ₚ zero_key <$> l2.*1
       ∧ ∀ k1 v1 k2 v2,
           (k1, v1) ∈ l1 → (k2, v2) ∈ l2 → zero_key k1 = zero_key k2 →
           Object_is v1 v2 = true).
Proof.
  intros l1 l2. apply (shallow_maps 1 2 l1 l2 ∅ ∅ ∅ ∅).
  - simpl. apply (bool_decide_unpack _). vm_compute. exact I.
  - simpl. apply (bool_decide_unpack _). vm_compute. exact I.
Defined.

(** ** The comparator is symmetric *)

Lemma arrays_sym l1 l2 :
  (if negb (bool_decide (length l1 = length l2)) then false
   else forallb (fun i => Object_is (default VUndefined (l1 !! i))
                                    (default VUndefined (l2 !! i)))
                (seq 0 (length l1)))
  = (if negb (bool_decide (length l2 = length l1)) then false
     else forallb (fun i => Object_is (default VUndefined (l2 !! i))
                                      (default VUndefined (l1 !! i)))
                  (seq 0 (length l2))).
Proof.
  case_bool_decide as Hlen; simpl.
  - rewrite bool_decide_eq_true_2 by done. simpl.
    apply Bool.eq_iff_eq_true.
    rewrite (arrays_compare l1 l2), (arrays_compare l2 l1) by done.
    split; intros H; apply Forall2_flip; eapply Forall2_impl; try exact H;
      intros x y Hxy; simpl; by rewrite Object_is_sym.
  - by rewrite bool_decide_eq_false_2 by done.
Qed.

Lemma keys_sym (p h q h' : gmap string Value) :
  dom h' ## dom p →
  dom h ## dom q →
  (if negb (bool_decide (length (map_to_list p).*1 = length (map_to_list q).*1))
   then false
   else forallb (fun key => bool_decide (is_Some ((q ∪ h') !! key))
                   && Object_is (default VUndefined ((p ∪ h) !! key))
                                (default VUndefined ((q ∪ h') !! key)))
                (map_to_list p).*1)
  = (if negb (bool_decide (length (map_to_list q).*1 = length (map_to_list p).*1))
     then false
     else forallb (fun key => bool_decide (is_Some ((p ∪ h) !! key))
                     && Object_is (default VUndefined ((q ∪ h') !! key))
                                  (default VUndefined ((p ∪ h) !! key)))
                  (map_to_list q).*1).
Proof.
  intros H1 H2. apply Bool.eq_iff_eq_true.
  rewrite !keys_compare, (keys_same p q h' H1), (keys_same q p h H2).
  split; intros [Hdom Hval]; (split; [done|]);
    intros k x y Hx Hy; rewrite Object_is_sym; by eapply Hval.
Qed.

Lemma sets_sym (l1 l2 : list Value) :
  NoDup (zero_key <$> l1) →
  NoDup (zero_key <$> l2) →
  (if negb (bool_decide (length l1 = length l2)) then false
   else forallb (fun x => existsb (fun y => same_value_zero y x) l2) l1)
  = (if negb (bool_decide (length l2 = length l1)) then false
     else forallb (fun x => existsb (fun y => same_value_zero y x) l1) l2).
Proof.
  intros H1 H2. apply Bool.eq_iff_eq_true. rewrite !sets_compare by done.
  split; intros H; by symmetry.
Qed.

Lemma maps_sym a b (l1 l2 : list (Value * Value)) p q h h' :
  NoDup (zero_key <$> l1.*1) →
  NoDup (zero_key <$> l2.*1) →
  (if negb (bool_decide (length l1 = length l2)) then false
   else forallb (fun kv => map_has (VMap b l2 q h') kv.1
                           && Object_is kv.2 (map_get (VMap b l2 q h') kv.1))
                l1)
  = (if negb (bool_decide (length l2 = length l1)) then false
     else forallb (fun kv => map_has (VMap a l1 p h) kv.1
                             && Object_is kv.2 (map_get (VMap a l1 p h) kv.1))
                  l2).
Proof.
  intros H1 H2. apply Bool.eq_iff_eq_true. rewrite !maps_compare by done.
  split; intros [Hperm Hval]; (split; [by symmetry|]);
    intros k1 v1 k2 v2 Hin1 Hin2 Hk; rewrite Object_is_sym;
    by apply (Hval k2 v2 k1 v1).
Qed.

(** X7. The comparator answers the same for [shallow(a, b)] and
    [shallow(b, a)], whatever the kinds of [a] and [b], when no
    non-enumerable own key of one of them is an enumerable own key of the
    other (and their [Map]s and [Set]s hold each key once). *)
Theorem shallow_sym (a b : Value) :
  well_formed a →
  well_formed b →
  dom (own_hidden a) ## dom (own_props b) →
  dom (own_hidden b) ## dom (own_props a) →
  shallow a b = shallow b a.
Proof.
  intros Ha Hb Hab Hba. unfold shallow. rewrite (Object_is_sym b a).
  destruct (Object_is a b) eqn:His; [done|].
  destruct a, b; simpl in *; try done;
    unfold Object_keys, hasOwnProperty, get_prop, own, index, set_has; simpl;
    first
      [ apply arrays_sym
      | apply number_strict_eq_sym
      | by apply keys_sym
      | by apply sets_sym
      | by apply maps_sym
      | apply bool_decide_ext; split; congruence ].
Qed.

Lemma shallow_sym_witness :
  let a := VPlain 1 {[ "x" := num 1 ]} ∅ in
  let b := VPlain 2 {[ "x" := num 1 ]} {[ "y" := num 2 ]} in
  shallow a b = true ∧ shallow a b = shallow b a.
Proof.
  intros a b. split; [vm_compute; reflexivity|].
  apply (shallow_sym a b).
  - exact I.
  - exact I.
  - simpl. apply (bool_decide_unpack _). vm_compute. exact I.
  - simpl. apply (bool_decide_unpack _). vm_compute. exact I.
Defined.

(** Without that, the two answers can differ:
    [shallow({ lastIndex: 0 }, Object.assign(/x/, { foo: 1 }))] holds,
    as the [RegExp] has an own [lastIndex], and the converse does not. *)
Example shallow_not_symmetric :
  let a := VPlain 1 {[ "lastIndex" := num 0 ]} ∅ in
  let b := VRegExp 2 "x" "" {[ "foo" := num 1 ]} {[ "lastIndex" := num 0 ]} in
  shallow a b = true ∧ shallow b a = false.
Proof. vm_compute. split; reflexivity. Qed.

(** ** Stores in use *)

(** X8. Every store made by [createStore] and used through [set],
    [subscribe] and the thunks keeps its version counter at 1 or more, so
    that the guard [store.$version++ && ...] never holds the callbacks
    back; its registered entries have pairwise distinct addresses, all
    allocated, as is the state object. *)
Theorem reachable_well_formed (initialValue : State) (ops : list Op) :
  let s := run ops (createStore initialValue) in
  (1 ≤ version s)%Z
  ∧ truthy (version s) = true
  ∧ NoDup (listeners s).*1
  ∧ Forall (fun e => (e.1 < next s)%nat) (listeners s)
  ∧ (state_ref (value s) < next s)%nat.
Proof.
  intros s.
  assert (wf s) as [Hv He Hn Hver] by apply wf_run, wf_createStore.
  split_and!; try done.
  unfold truthy. apply negb_true_iff, Z.eqb_neq. lia.
Qed.

Lemma set_version_bounds nextState s :
  (version s ≤ version (set nextState s).2 ≤ version s + 1)%Z.
Proof.
  rewrite set_unfold.
  destruct (resolve nextState (value s)) as [P|e]; simpl; [|lia].
  destruct (collect _ _ _ _) as [[|cb q]|e]; simpl; [lia| |lia].
  destruct (truthy (version s)); simpl; lia.
Qed.

Lemma step_version_bounds s op :
  (version s ≤ version (step s op)
   ≤ version s + (if is_update op then 1 else 0))%Z.
Proof.
  destruct op as [nextState|cb sel eq|a]; cbn [step is_update].
  - apply set_version_bounds.
  - rewrite subscribe_unfold. simpl. lia.
  - rewrite unsubscribe_unfold. simpl. lia.
Qed.

Lemma updates_cons op ops :
  updates (op :: ops) = ((if is_update op then 1 else 0) + updates ops)%nat.
Proof.
  unfold updates. rewrite filter_cons.
  destruct (is_update op); [by rewrite decide_True|by rewrite decide_False].
Qed.

(** X9. The version counter never goes down, and over any sequence of
    uses it goes up by at most the number of [set] calls among them. *)
Theorem version_bounds (ops : list Op) (s : Store) :
  (version s ≤ version (run ops s) ≤ version s + Z.of_nat (updates ops))%Z.
Proof.
  revert s. induction ops as [|op ops IH]; intros s.
  - simpl. unfold updates. simpl. lia.
  - simpl. rewrite updates_cons.
    pose proof (step_version_bounds s op) as Hstep.
    specialize (IH (step s op)).
    destruct (is_update op); lia.
Qed.

(** X10. [subscribe] and the thunks never call a callback and never touch
    the state or the version counter: over a sequence of uses without a
    [set], the state object, the version counter and the call log stay as
    they were. *)
Theorem subscriptions_are_silent (ops : list Op) (s : Store) :
  Forall (fun op => is_update op = false) ops →
  value (run ops s) = value s
  ∧ version (run ops s) = version s
  ∧ calls (run ops s) = calls s.
Proof.
  intros H. revert s. induction H as [|op ops Hop _ IH]; intros s; [done|].
  simpl. destruct (IH (step s op)) as (-> & -> & ->).
  destruct op as [nextState|cb sel eq|a]; [done| |].
  - cbn [step]. by rewrite subscribe_unfold.
  - cbn [step]. by rewrite unsubscribe_unfold.
Qed.

Lemma subscriptions_are_silent_witness :
  let ops := [OpSubscribe (Examples.listener 1) (select_field "count") None;
              OpUnsubscribe 1;
              OpSubscribe (Examples.listener 2) select_state None] in
  value (run ops Examples.store0) = value Examples.store0
  ∧ version (run ops Examples.store0) = version Examples.store0
  ∧ calls (run ops Examples.store0) = calls Examples.store0.
Proof.
  intros ops. apply (subscriptions_are_silent ops Examples.store0).
  repeat constructor.
Defined.

(** X11. When the updater function given to [set] throws, [set] throws
    the same and nothing has happened: the state, the listeners, the
    version counter and the call log are as before, and no object was
    allocated. *)
Theorem set_updater_throws (f : State → result (gmap string Value))
    (s : Store) (e : Exn) :
  f (value s) = Throw e →
  set (Updater f) s = (Throw e, s)
  ∧ ∀ ops, run (OpSet (Updater f) :: ops) s = run ops s.
Proof.
  intros Hf.
  assert (set (Updater f) s = (Throw e, s)) as Hset.
  { rewrite set_unfold. simpl. by rewrite Hf. }
  split; [done|]. intros ops. simpl. by rewrite Hset.
Qed.

Lemma set_updater_throws_witness :
  set Scenarios.failing_updater Examples.counting
  = (Throw Scenarios.boom, Examples.counting)
  ∧ ∀ ops, run (OpSet Scenarios.failing_updater :: ops) Examples.counting
           = run ops Examples.counting.
Proof.
  apply (set_updater_throws (fun _ => Throw Scenarios.boom)
           Examples.counting Scenarios.boom).
  reflexivity.
Defined.

Lemma queue_throws pre cb post e :
  Forall returns pre →
  cb_outcome cb = Throw e →
  outcome (pre ++ cb :: post) = Throw e
  ∧ invoked (pre ++ cb :: post) = pre ++ [cb].
Proof.
  intros Hpre Hcb. induction Hpre as [|c rest Hc _ [IH1 IH2]]; simpl.
  - by rewrite Hcb.
  - rewrite Hc. by rewrite IH1, IH2.
Qed.

(** X12. When a queued callback throws, [set] throws the same, after the
    fact: the merged state is committed and the version counter has gone
    up by one, the callbacks queued before it have been called, the ones
    queued after it are not called. *)
Theorem set_callback_throws (nextState : SetArg) (s : Store)
    (P : gmap string Value) (pre post : list Callback) (cb : Callback)
    (e : Exn) :
  wf s →
  resolve nextState (value s) = Ok P →
  Forall (fun x => evaluates (newState s P) (value s) x.2) (listeners s) →
  callbacks (notified (newState s P) (value s) (listeners s))
  = pre ++ cb :: post →
  Forall returns pre →
  cb_outcome cb = Throw e →
  let r := set nextState s in
  r.1 = Throw e
  ∧ (get r.2).1 = Ok (newState s P)
  ∧ version r.2 = (version s + 1)%Z
  ∧ calls r.2 = calls s ++ pre ++ [cb]
  ∧ listeners r.2 = listeners s.
Proof.
  intros Hwf HP Hev Hq Hpre Hcb r. subst r.
  rewrite set_unfold, HP, (collect_evaluates _ _ _ [] Hev). simpl.
  rewrite Hq.
  destruct (queue_throws pre cb post e Hpre Hcb) as [Hout Hinv].
  assert (truthy (version s) = true) as ->.
  { unfold truthy. destruct Hwf as [_ _ _ Hver].
    apply negb_true_iff, Z.eqb_neq. lia. }
  destruct (pre ++ cb :: post) as [|c q] eqn:Hlist.
  { by destruct pre. }
  simpl. split_and!; [exact Hout|done|done| |done].
  f_equal. exact Hinv.
Qed.

Lemma wf_three : wf Scenarios.three.
Proof. apply wf_run, wf_createStore. Qed.

Lemma set_callback_throws_witness :
  let s := Scenarios.three in
  let nextState := Partial {[ "count" := num 1 ]} in
  let P : gmap string Value := {[ "count" := num 1 ]} in
  let r := set nextState s in
  r.1 = Throw Scenarios.boom
  ∧ (get r.2).1 = Ok (newState s P)
  ∧ version r.2 = (version s + 1)%Z
  ∧ calls r.2 = calls s ++ [Examples.listener 1] ++ [Scenarios.failing 2]
  ∧ listeners r.2 = listeners s.
Proof.
  intros s nextState P.
  apply (set_callback_throws nextState s P [Examples.listener 1]
           [Examples.listener 3] (Scenarios.failing 2) Scenarios.boom).
  - exact wf_three.
  - reflexivity.
  - repeat constructor; exists true; vm_compute; reflexivity.
  - vm_compute. reflexivity.
  - repeat constructor.
  - reflexivity.
Defined.

(** ** Subscriptions to a field *)






Lemma wf_two_fields : wf Scenarios.two_fields.
Proof. apply wf_run, wf_createStore. Qed.


(** ** Updates in sequence *)

Lemma set_ok_value nextState s s' P :
  set nextState s = (Ok tt, s') →
  resolve nextState (value s) = Ok P →
  value s' = newState s P.
Proof.
  rewrite set_unfold. intros H HP. rewrite HP in H.
  destruct (collect _ _ _ _) as [[|cb q]|e]; [| |done].
  - by injection H as <-.
  - destruct (truthy (version s));
      [injection H as _ <-|injection H as <-]; done.
Qed.

(** X14. Updates accumulate: after two [set] calls that return, the
    fields of the state are those of the first state overridden by the
    first update and then by the second, as one [set] with the two
    updates merged would leave them. Giving the same update a second time
    changes no field. *)
Theorem set_twice (n1 n2 : SetArg) (s s1 s2 : Store)
    (P1 P2 : gmap string Value) :
  set n1 s = (Ok tt, s1) →
  resolve n1 (value s) = Ok P1 →
  set n2 s1 = (Ok tt, s2) →
  resolve n2 (value s1) = Ok P2 →
  fields (value s2) = (P2 ∪ P1) ∪ fields (value s)
  ∧ fields (value s2) = spread (value s) (P2 ∪ P1)
  ∧ (P2 = P1 → fields (value s2) = fields (value s1)).
Proof.
  intros H1 HP1 H2 HP2.
  pose proof (set_ok_value n1 s s1 P1 H1 HP1) as E1.
  pose proof (set_ok_value n2 s1 s2 P2 H2 HP2) as E2.
  rewrite E2. unfold newState at 1 2 3. rewrite E1.
  unfold newState, spread. simpl.
  split_and!.
  - by rewrite (assoc_L (∪)).
  - by rewrite (assoc_L (∪)).
  - intros ->. by rewrite (assoc_L (∪)), (idemp_L (∪)).
Qed.

Lemma set_twice_witness :
  let n1 := Partial {[ "count" := num 1 ]} in
  let n2 := Examples.increment in
  let s := Examples.counting in
  let s1 := (set n1 s).2 in
  let s2 := (set n2 s1).2 in
  let P1 : gmap string Value := {[ "count" := num 1 ]} in
  let P2 : gmap string Value := {[ "count" := num 2 ]} in
  fields (value s2) = (P2 ∪ P1) ∪ fields (value s)
  ∧ fields (value s2) = spread (value s) (P2 ∪ P1)
  ∧ (P2 = P1 → fields (value s2) = fields (value s1)).
Proof.
  intros n1 n2 s s1 s2 P1 P2.
  apply (set_twice n1 n2 s s1 s2 P1 P2).
  - vm_compute. reflexivity.
  - reflexivity.
  - vm_compute. reflexivity.
  - vm_compute. reflexivity.
Defined.

(** ** Reading through the hook *)

(** X15. Outside a Provider the hook throws its usage error without
    calling the selector. Inside, a selector that throws makes the hook
    throw the same; otherwise the refs are seeded with the selector's
    value for the current state and with the store's version, and the
    first read returns that value and leaves the refs as seeded. *)
Theorem useStoreSelector_seeds (selector : SelectorFn) :
  useStoreSelector_refs None selector
  = Throw (Error "useStoreSelector must be used within a Provider")
  ∧ (∀ store e,
       selector (value store) = Throw e →
       useStoreSelector_refs (Some store) selector = Throw e)
  ∧ (∀ store v,
       selector (value store) = Ok v →
       useStoreSelector_refs (Some store) selector
       = Ok (mkRefs v (version store))
       ∧ getSnapshot store selector (mkRefs v (version store))
         = (Ok v, mkRefs v (version store))).
Proof.
  split_and!.
  - done.
  - intros store e He. unfold useStoreSelector_refs, applySelector.
    by rewrite He.
  - intros store v Hv. split.
    + unfold useStoreSelector_refs, applySelector. by rewrite Hv.
    + unfold getSnapshot, applySelector. rewrite Hv. simpl.
      by rewrite bool_decide_eq_true_2.
Qed.

Lemma useStoreSelector_seeds_witness :
  useStoreSelector_refs (Some Examples.with_user) Examples.select_user_name
  = Ok (mkRefs (VStr "John") (version Examples.with_user))
  ∧ getSnapshot Examples.with_user Examples.select_user_name
      (mkRefs (VStr "John") (version Examples.with_user))
    = (Ok (VStr "John"), mkRefs (VStr "John") (version Examples.with_user)).
Proof.
  destruct (useStoreSelector_seeds Examples.select_user_name) as (_ & _ & H).
  apply (H Examples.with_user (VStr "John")).
  vm_compute. reflexivity.
Defined.

Lemma set_silent nextState s P :
  resolve nextState (value s) = Ok P →
  Forall (fun e => evaluates (newState s P) (value s) e.2) (listeners s) →
  notified (newState s P) (value s) (listeners s) = [] →
  set nextState s
  = (Ok tt,
     mkStore (newState s P) (listeners s) (version s) (S (next s)) (calls s)).
Proof.
  intros HP Hev Hnone.
  rewrite set_unfold, HP, (collect_evaluates _ _ _ [] Hev), Hnone. done.
Qed.

(** X16. An update that notifies no entry commits the new state and
    leaves the version counter as it is, so a read whose cached version is
    the store's keeps returning the cached snapshot, whatever the selector
    gives for the new state. This is the case of every update of a store
    without subscriptions. *)
Theorem read_after_silent_update (nextState : SetArg) (s : Store)
    (P : gmap string Value) (selector : SelectorFn) (refs : Refs) :
  resolve nextState (value s) = Ok P →
  Forall (fun e => evaluates (newState s P) (value s) e.2) (listeners s) →
  notified (newState s P) (value s) (listeners s) = [] →
  lastVersionRef refs = version s →
  let s' := (set nextState s).2 in
  value s' = newState s P
  ∧ version s' = version s
  ∧ ∀ v, selector (value s') = Ok v →
         getSnapshot s' selector refs = (Ok (lastSnapshotRef refs), refs).
Proof.
  intros HP Hev Hnone Hrefs s'. subst s'.
  rewrite (set_silent nextState s P HP Hev Hnone). simpl.
  split_and!; [done|done|].
  intros v Hv. unfold getSnapshot, applySelector. simpl. rewrite Hv.
  by rewrite bool_decide_eq_true_2.
Qed.

Lemma read_after_silent_update_witness :
  let s := Examples.store0 in
  let nextState := Partial {[ "count" := num 1 ]} in
  let P : gmap string Value := {[ "count" := num 1 ]} in
  let refs := mkRefs (num 0) 1 in
  let s' := (set nextState s).2 in
  useStoreSelector_refs (Some s) (select_field "count") = Ok refs
  ∧ select_field "count" (value s') = Ok (num 1)
  ∧ value s' = newState s P
  ∧ version s' = version s
  ∧ ∀ v, select_field "count" (value s') = Ok v →
         getSnapshot s' (select_field "count") refs
         = (Ok (lastSnapshotRef refs), refs).
Proof.
  intros s nextState P refs s'.
  split; [vm_compute; reflexivity|].
  split; [vm_compute; reflexivity|].
  apply (read_after_silent_update nextState s P (select_field "count") refs).
  - reflexivity.
  - constructor.
  - reflexivity.
  - reflexivity.
Defined.

Lemma notified_nonempty new old ls e :
  e ∈ ls → is_changed new old e.2 = true → notified new old ls ≠ [].
Proof.
  intros Hin Hch Hnil.
  assert (e ∈ notified new old ls) as Hn.
  { unfold notified. apply list_elem_of_filter. by split. }
  rewrite Hnil in Hn. by apply elem_of_nil in Hn.
Qed.

(** X17. After an update that notifies at least one registered entry,
    whoever it belongs to, every read whose cached version is the one from
    before the update returns the selector's value for the new state and
    caches it with the new version; this holds even when a notified
    callback throws. *)
Theorem read_after_notifying_update (nextState : SetArg) (s : Store)
    (P : gmap string Value) (e : addr * Entry) (selector : SelectorFn)
    (refs : Refs) (v : Value) :
  wf s →
  resolve nextState (value s) = Ok P →
  Forall (fun x => evaluates (newState s P) (value s) x.2) (listeners s) →
  e ∈ listeners s →
  is_changed (newState s P) (value s) e.2 = true →
  lastVersionRef refs = version s →
  selector (newState s P) = Ok v →
  let s' := (set nextState s).2 in
  version s' = (version s + 1)%Z
  ∧ getSnapshot s' selector refs = (Ok v, mkRefs v (version s + 1))
  ∧ getSnapshot s' selector (mkRefs v (version s + 1))
    = (Ok v, mkRefs v (version s + 1)).
Proof.
  intros Hwf HP Hev Hin Hch Hrefs Hv s'.
  pose proof (notified_nonempty _ _ _ e Hin Hch) as Hne.
  assert (value s' = newState s P ∧ version s' = (version s + 1)%Z)
    as [Hvalue Hversion].
  { subst s'. rewrite set_unfold, HP, (collect_evaluates _ _ _ [] Hev).
    simpl.
    destruct (notified (newState s P) (value s) (listeners s))
      as [|x rest]; [done|].
    simpl. by destruct (truthy (version s)). }
  split; [done|].
  unfold getSnapshot, applySelector. rewrite Hvalue, Hv, Hversion. simpl.
  rewrite bool_decide_eq_false_2 by lia.
  by rewrite bool_decide_eq_true_2.
Qed.

Lemma read_after_notifying_update_witness :
  let s := Examples.counting in
  let nextState := Partial {[ "count" := num 1 ]} in
  let refs := mkRefs (VStr "x") 1 in
  let s' := (set nextState s).2 in
  version s' = (version s + 1)%Z
  ∧ getSnapshot s' (select_field "name") refs
    = (Ok (VStr "x"), mkRefs (VStr "x") (version s + 1))
  ∧ getSnapshot s' (select_field "name") (mkRefs (VStr "x") (version s + 1))
    = (Ok (VStr "x"), mkRefs (VStr "x") (version s + 1)).
Proof.
  intros s nextState refs.
  apply (read_after_notifying_update nextState s {[ "count" := num 1 ]}
           (1, field_entry (Examples.listener 7) "count")
           (select_field "name") refs (VStr "x")).
  - exact wf_counting.
  - reflexivity.
  - repeat constructor. exists true. vm_compute. reflexivity.
  - apply list_elem_of_here.
  - vm_compute. reflexivity.
  - reflexivity.
  - vm_compute. reflexivity.
Defined.

(** ** Unsubscribing one of several *)

Lemma notified_set_delete new old a ls :
  notified new old (set_delete a ls) = set_delete a (notified new old ls).
Proof.
  induction ls as [|[a' entry] rest IH]; [done|].
  unfold set_delete at 1. rewrite filter_cons. fold (set_delete a rest).
  rewrite notified_cons. simpl. destruct (decide (a' ≠ a)) as [Hne|Heq].
  - rewrite notified_cons. destruct (is_changed new old entry).
    + unfold set_delete at 2. rewrite filter_cons_True by done.
      fold (set_delete a (notified new old rest)). by rewrite IH.
    + done.
  - destruct (is_changed new old entry); [|done].
    unfold set_delete at 2. rewrite filter_cons_False by done.
    fold (set_delete a (notified new old rest)). done.
Qed.

Lemma sublist_Forall {A} (P : A → Prop) (l k : list A) :
  l `sublist_of` k → Forall P k → Forall P l.
Proof.
  intros Hsub Hk. apply Forall_forall. intros x Hx.
  rewrite Forall_forall in Hk. apply Hk. by eapply elem_of_sublist.
Qed.

(** X18. Running the thunk of one entry takes exactly that entry's call
    out of what an update does: the update of the store without the entry
    calls the callbacks that it would have called with the entry, in the
    same order, less the one of the entry. *)
Theorem unsubscribe_removes_one_call (a : addr) (nextState : SetArg)
    (s : Store) (P : gmap string Value) :
  wf s →
  resolve nextState (value s) = Ok P →
  Forall (fun e => evaluates (newState s P) (value s) e.2) (listeners s) →
  Forall returns
    (callbacks (notified (newState s P) (value s) (listeners s))) →
  calls (set nextState s).2
  = calls s ++ callbacks (notified (newState s P) (value s) (listeners s))
  ∧ calls (set nextState (unsubscribe a s).2).2
    = calls s
      ++ callbacks (filter (fun e => e.1 ≠ a)
                      (notified (newState s P) (value s) (listeners s))).
Proof.
  intros Hwf HP Hev Hret.
  assert (1 ≤ version s)%Z as Hver by (by destruct Hwf).
  split.
  - by destruct (set_notifies nextState s P Hver HP Hev Hret) as [_ ->].
  - pose (s1 := (unsubscribe a s).2).
    assert (newState s1 P = newState s P) as Hnew by done.
    assert (listeners s1 = set_delete a (listeners s)) as Hl by done.
    destruct (set_notifies nextState s1 P) as [_ Hcalls].
    + done.
    + done.
    + rewrite Hnew, Hl. eapply sublist_Forall; [|exact Hev].
      apply sublist_filter.
    + rewrite Hnew, Hl, notified_set_delete.
      eapply sublist_Forall; [|exact Hret].
      apply fmap_sublist, sublist_filter.
    + fold s1. rewrite Hcalls, Hnew, Hl, notified_set_delete. done.
Qed.

Lemma unsubscribe_removes_one_call_witness :
  let s := Scenarios.two_fields in
  let nextState := Partial {[ "name" := VStr "y"; "count" := num 1 ]} in
  let P : gmap string Value := {[ "name" := VStr "y"; "count" := num 1 ]} in
  calls (set nextState s).2
  = calls s ++ callbacks (notified (newState s P) (value s) (listeners s))
  ∧ calls (set nextState (unsubscribe 1 s).2).2
    = calls s
      ++ callbacks (filter (fun e => e.1 ≠ 1)
                      (notified (newState s P) (value s) (listeners s))).
Proof.
  intros s nextState P.
  apply (unsubscribe_removes_one_call 1 nextState s P).
  - exact wf_two_fields.
  - reflexivity.
  - repeat constructor; exists true; vm_compute; reflexivity.
  - vm_compute. repeat constructor.
Defined.
